(** * file-watch-copy: the watch-to-mirror pipeline

    A shallow embedding of the three variants of the watcher
    (watch.go and the two later revisions of the same program) and the
    properties of path resolution, of the mirror-path mapping and of the
    delayed copy. *)

From Stdlib Require Import String Ascii List Bool Arith Lia.
From Stdlib Require Import Strings.Byte.
Import ListNotations.

Local Open Scope string_scope.
Local Open Scope list_scope.
Local Open Scope nat_scope.

(** ** Go strings

    A Go string is a sequence of bytes; [string] holds one byte per
    [ascii]. *)

Module GoStrings.

(** [s[n:]] for [n <= len(s)]. *)
Fixpoint skip (n : nat) (s : string) : string :=
  match n, s with
  | 0, _ => s
  | S _, EmptyString => EmptyString
  | S n', String _ s' => skip n' s'
  end.

(** [s[lo:hi]]; Go aborts with "slice bounds out of range" unless
    [lo <= hi <= len(s)], which is [None] here. *)
Definition slice (s : string) (lo hi : nat) : option string :=
  if Nat.leb lo hi && Nat.leb hi (String.length s)
  then Some (substring lo (hi - lo) s)
  else None.

(** [strings.Index(s, substr)]: the offset of the first occurrence,
    [None] for Go's -1. *)
Fixpoint Index (s substr : string) : option nat :=
  if prefix substr s then Some 0
  else match s with
       | EmptyString => None
       | String _ s' => option_map S (Index s' substr)
       end.

(** [strings.Replace(s, old, new, 1)]: the first occurrence of [old]
    is replaced; [s] is returned as it is when [old] does not occur
    (or equals [new]). *)
Definition Replace1 (s old new : string) : string :=
  if String.eqb old new then s
  else match Index s old with
       | None => s
       | Some j =>
           (substring 0 j s ++ new ++ skip (j + String.length old) s)%string
       end.

End GoStrings.

(** ** The mirror-path mapping

    The computation of [newPath] in [sync] / [syncFile]:
<<
    newPath := filePath
    if runtime.GOOS == "windows" {
        newPath = strings.Replace(filePath, filePath[0:2], copyDir, 1)
    } else {
        newPath = copyDir + filePath
    }
>>
    [None] is the run-time abort of the slice expression. *)

Definition newPath (GOOS copyDir filePath : string) : option string :=
  if String.eqb GOOS "windows" then
    match GoStrings.slice filePath 0 2 with
    | Some drive => Some (GoStrings.Replace1 filePath drive copyDir)
    | None => None
    end
  else Some (copyDir ++ filePath)%string.

(** ** Errors

    A Go [error] value is an [option error]; [None] is [nil]. *)

Inductive error : Type :=
| SkipDir         (* filepath.SkipDir *)
| ErrNotExist     (* ENOENT: no such file or directory *)
| ErrNotDir       (* ENOTDIR *)
| ErrIsDir        (* EISDIR *)
| ErrPermission   (* EACCES *)
| ErrNoSpace      (* ENOSPC *)
| ErrInvalid.     (* os.ErrInvalid: operation on a nil or closed file *)

Inductive result (A : Type) : Type :=
| Ok (a : A)
| Err (e : error).
Arguments Ok {A} a.
Arguments Err {A} e.

Definition bind {A B : Type} (r : result A) (k : A -> result B) : result B :=
  match r with
  | Ok a => k a
  | Err e => Err e
  end.

(** ** The file system

    A tree: a regular file with its bytes, or a directory with its
    entries in listing order.  [readable] is the read permission of a
    directory: listing an unreadable directory fails, passing through it
    does not.  There are no symbolic links, so [os.Lstat] and [os.Stat]
    agree. *)

Unset Elimination Schemes.
Inductive node : Type :=
| Regular (data : list byte)
| Directory (readable : bool) (entries : list (string * node)).
Set Elimination Schemes.

Module FS.

Definition IsPathSeparator (GOOS : string) (c : ascii) : bool :=
  if String.eqb GOOS "windows"
  then Ascii.eqb c "/"%char || Ascii.eqb c "\"%char
  else Ascii.eqb c "/"%char.

(** The elements of a path between separators; [acc] is the element
    being read. *)
Fixpoint fields (GOOS : string) (s acc : string) : list string :=
  match s with
  | EmptyString => [acc]
  | String c s' =>
      if IsPathSeparator GOOS c then acc :: fields GOOS s' EmptyString
      else fields GOOS s' (acc ++ String c EmptyString)%string
  end.

Definition is_name (c : string) : bool :=
  negb (String.eqb c "") && negb (String.eqb c ".").

(** The names a path goes through from the root of the tree: empty
    elements (doubled or trailing separators) and "." are dropped;
    ".." is not interpreted.  On windows the volume ("D:") is the
    first name. *)
Definition components (GOOS path : string) : list string :=
  filter is_name (fields GOOS path EmptyString).

Fixpoint find_entry (name : string) (es : list (string * node)) : option node :=
  match es with
  | [] => None
  | (k, n) :: es' => if String.eqb name k then Some n else find_entry name es'
  end.

Fixpoint set_entry (name : string) (n : node) (es : list (string * node))
  : list (string * node) :=
  match es with
  | [] => [(name, n)]
  | (k, m) :: es' =>
      if String.eqb name k then (k, n) :: es' else (k, m) :: set_entry name n es'
  end.

Fixpoint lookup (n : node) (cs : list string) : option node :=
  match cs with
  | [] => Some n
  | c :: cs' =>
      match n with
      | Regular _ => None
      | Directory _ es =>
          match find_entry c es with
          | Some ch => lookup ch cs'
          | None => None
          end
      end
  end.

(** [os.Stat(path)]: the node, or [None] when the call fails (the
    error is then [ErrNotExist]).  The empty path names nothing. *)
Definition Stat (GOOS : string) (root : node) (path : string) : option node :=
  if String.eqb path "" then None else lookup root (components GOOS path).

(** Applies [f] at the place [cs]: to the node there, or to [None] when
    the last name is free in an existing directory. *)
Fixpoint alter (f : option node -> result node) (n : node) (cs : list string)
  : result node :=
  match cs with
  | [] => f (Some n)
  | c :: cs' =>
      match n with
      | Regular _ => Err ErrNotDir
      | Directory r es =>
          match find_entry c es with
          | Some ch =>
              bind (alter f ch cs') (fun ch' => Ok (Directory r (set_entry c ch' es)))
          | None =>
              match cs' with
              | [] => bind (f None) (fun ch' => Ok (Directory r (set_entry c ch' es)))
              | _ :: _ => Err ErrNotExist
              end
          end
      end
  end.

(** [os.MkdirAll] along [cs]: existing directories are kept, missing
    ones are made, a regular file on the way is [ErrNotDir]. *)
Fixpoint mkdirs (n : node) (cs : list string) : result node :=
  match n with
  | Regular _ => Err ErrNotDir
  | Directory r es =>
      match cs with
      | [] => Ok n
      | c :: cs' =>
          let ch := match find_entry c es with
                    | Some ch => ch
                    | None => Directory true []
                    end in
          bind (mkdirs ch cs') (fun ch' => Ok (Directory r (set_entry c ch' es)))
      end
  end.

Definition MkdirAll (GOOS : string) (root : node) (path : string)
  : node * option error :=
  if String.eqb path "" then (root, Some ErrNotExist)
  else match mkdirs root (components GOOS path) with
       | Ok root' => (root', None)
       | Err e => (root, Some e)
       end.

(** [os.OpenFile(path, os.O_WRONLY|os.O_CREATE [|os.O_TRUNC], 0666)]:
    a missing file is created empty, an existing one is emptied only
    under [trunc]; a directory cannot be opened for writing. *)
Definition open_write (trunc : bool) (o : option node) : result node :=
  match o with
  | None => Ok (Regular [])
  | Some (Regular d) => Ok (Regular (if trunc then [] else d))
  | Some (Directory _ _) => Err ErrIsDir
  end.

Definition OpenFile (GOOS : string) (trunc : bool) (root : node) (path : string)
  : result node :=
  if String.eqb path "" then Err ErrNotExist
  else alter (open_write trunc) root (components GOOS path).

(** [os.Create(path)] is [OpenFile(path, O_RDWR|O_CREATE|O_TRUNC, 0666)]. *)
Definition Create (GOOS : string) (root : node) (path : string) : result node :=
  OpenFile GOOS true root path.

(** Writing [data] from offset 0 of an open file: the bytes replace the
    first [length data] bytes of the file, what follows them stays. *)
Definition write_at (data : list byte) (o : option node) : result node :=
  match o with
  | Some (Regular old) => Ok (Regular (data ++ skipn (length data) old))
  | _ => Err ErrInvalid
  end.

Definition Write (GOOS : string) (root : node) (path : string) (data : list byte)
  : node :=
  match alter (write_at data) root (components GOOS path) with
  | Ok root' => root'
  | Err _ => root
  end.

End FS.

(** ** path/filepath *)

Module Filepath.

(** Drops the last element of [rev path], then the separators before
    it. *)
Fixpoint drop_element (GOOS : string) (r : list ascii) : list ascii :=
  match r with
  | [] => []
  | c :: r' => if FS.IsPathSeparator GOOS c then r else drop_element GOOS r'
  end.

Fixpoint drop_separators (GOOS : string) (r : list ascii) : list ascii :=
  match r with
  | [] => []
  | c :: r' => if FS.IsPathSeparator GOOS c then drop_separators GOOS r' else r
  end.

(** [filepath.Dir(path)]: all but the last element of the path, without
    the trailing separators; "." when nothing is left of a relative
    path and the separator when nothing is left of a rooted one.
    A volume name is an element like the others.  (The [Clean] of the
    result, which also rewrites doubled separators and "." elements
    inside it, is left out: [FS.components] reads both forms alike.) *)
Definition Dir (GOOS path : string) : string :=
  let r := drop_element GOOS (rev (list_ascii_of_string path)) in
  match r, drop_separators GOOS r with
  | [], _ => "."
  | c :: _, [] => String c EmptyString
  | _, d => string_of_list_ascii (rev d)
  end.

(** [filepath.Join(path, name)] for a directory path and the name of
    one of its entries, up to the [Clean] of the result. *)
Definition Join (GOOS path name : string) : string :=
  let sep := if String.eqb GOOS "windows" then "\" else "/" in
  match rev (list_ascii_of_string path) with
  | c :: _ =>
      if FS.IsPathSeparator GOOS c then (path ++ name)%string
      else (path ++ sep ++ name)%string
  | [] => name
  end.

Definition is_dir (n : node) : bool :=
  match n with
  | Directory _ _ => true
  | Regular _ => false
  end.

Definition is_SkipDir (e : error) : bool :=
  match e with
  | SkipDir => true
  | _ => false
  end.

Section Walk.

(** The state the walk function works on (for [ResolvePaths], the
    slice [resolved] its closure appends to). *)
Variable St : Type.
Variable GOOS : string.
Variable walkFn :
  string -> option node -> option error -> St -> St * option error.

(** [filepath.walk]: the directory is listed, the walk function is
    called on it, and the entries are walked in turn; [SkipDir] from
    a directory skips it, any other error stops the walk. *)
Fixpoint walk (path : string) (info : node) (st : St) {struct info}
  : St * option error :=
  match info with
  | Regular _ => walkFn path (Some info) None st
  | Directory readable names =>
      let err := if readable then None else Some ErrPermission in
      let '(st1, err1) := walkFn path (Some info) err st in
      match err, err1 with
      | None, None =>
          (fix entries (names : list (string * node)) (st : St)
             : St * option error :=
             match names with
             | [] => (st, None)
             | (name, fileInfo) :: names' =>
                 let '(st', err) := walk (Join GOOS path name) fileInfo st in
                 match err with
                 | None => entries names' st'
                 | Some e =>
                     if negb (is_dir fileInfo) || negb (is_SkipDir e)
                     then (st', Some e)
                     else entries names' st'
                 end
             end) names st1
      | _, _ => (st1, err1)
      end
  end.

(** [filepath.Walk(root, walkFn)]. *)
Definition Walk (fs : node) (root : string) (st : St) : St * option error :=
  let '(st', err) :=
    match FS.Stat GOOS fs root with
    | None => walkFn root None (Some ErrNotExist) st
    | Some info => walk root info st
    end in
  match err with
  | Some SkipDir => (st', None)
  | _ => (st', err)
  end.

End Walk.

End Filepath.

(** ** The program state *)

(** The three revisions of the program. *)
Inductive Variant : Type :=
| watch_go    (* watch.go: sync, copyFile *)
| part_000    (* syncFile and Copy, reporting through the log package *)
| part_001.   (* syncFile and Copy, reporting through fmt *)

(** What the Go installation fixes: [runtime.GOOS]; whether [*os.File]
    implements [io.ReaderFrom] (it does from Go 1.15 on), which decides
    whether a [bufio.Writer] around a file buffers an [io.Copy] at all;
    and [time.ParseDuration], in seconds. *)
Record Runtime : Type := {
  GOOS : string;
  FileReaderFrom : bool;
  ParseDuration : string -> option nat
}.

Record options : Type := {
  Help : bool;
  Halt : bool;
  Quiet : bool;
  Interval : string;
  NoRecurse : bool;
  Version : bool;
  OnChange : string
}.

(** [var opts = options{Interval: "1s"}] *)
Definition opts : options :=
  {| Help := false; Halt := false; Quiet := false; Interval := "1s";
     NoRecurse := false; Version := false; OnChange := "" |}.

Inductive stream : Type := Stdout | Stderr.

Inductive message : Type :=
| Usage                                       (* the usage text *)
| NotExists (copyDir : string)                (* "copy target dir is not exists" copyDir *)
| DirExists (newPath : string)                (* "dir exists" newPath *)
| CopyIn (filePath newPath : string) (sleep : nat)
                                              (* "copy file from %s to %s in %d secend" *)
| CopySuccess (newPath : string)              (* "file copy success" newPath *)
| OpenFileError (e : error)                   (* "open file error = %v" *)
| Failure (e : error).                        (* the error value itself *)

(** A scheduled [time.AfterFunc]: the variables its closure captured and
    the time it is due. *)
Record Timer : Type := {
  due : nat;
  source : string;
  dest : string
}.

Record World : Type := {
  fs : node;
  quota : option nat;   (* bytes the mirror device takes in one copy; None: no limit *)
  now : nat;            (* seconds *)
  timers : list Timer;
  output : list (stream * message)
}.

Definition with_fs (w : World) (root : node) : World :=
  {| fs := root; quota := quota w; now := now w; timers := timers w;
     output := output w |}.

Definition AfterFunc (w : World) (d : nat) (src dst : string) : World :=
  {| fs := fs w; quota := quota w; now := now w;
     timers := timers w ++ [{| due := now w + d; source := src; dest := dst |}];
     output := output w |}.

(** Where a line for [s] goes: in part_000 every line goes through
    [log.Println], whose writer is the standard error. *)
Definition line (v : Variant) (s : stream) : stream :=
  match v with
  | part_000 => Stderr
  | _ => s
  end.

(** [fmt.Fprintln(os.Stdout / os.Stderr, ...)], [log.Println(...)]. *)
Definition say (v : Variant) (s : stream) (m : message) (w : World) : World :=
  {| fs := fs w; quota := quota w; now := now w; timers := timers w;
     output := output w ++ [(line v s, m)] |}.

(** The package-level variables set by [init]. *)
Record Globals : Type := {
  paths : list string;
  copyDir : string;
  sleep : nat;
  interval : nat
}.

(** ** The program *)

Section Program.

Variable rt : Runtime.

Definition IsDir (root : node) (path : string) : bool :=
  match FS.Stat (GOOS rt) root path with
  | None => false
  | Some s => Filepath.is_dir s
  end.

Definition IsFile (root : node) (path : string) : bool :=
  negb (IsDir root path).

Definition mkdirAll (root : node) (path : string) : node * option error :=
  FS.MkdirAll (GOOS rt) root path.

(** *** ResolvePaths *)

(** The closure [walker]; [recurse] is [filepath.SkipDir] under
    [opts.NoRecurse] and [nil] otherwise. *)
Definition walker (recurse : option error)
    (path : string) (info : option node) (err : option error)
    (resolved : list string) : list string * option error :=
  match err with
  | Some e => (resolved, Some e)
  | None =>
      match info with
      | Some (Directory _ _) => (resolved ++ [path], recurse)
      | _ => (resolved, recurse)
      end
  end.

(** The loop over [args]; the error of [filepath.Walk] is assigned to
    [err] and not looked at again. *)
Fixpoint resolve (recurse : option error) (root : node) (args : list string)
    (resolved : list string) : list string * option error :=
  match args with
  | [] => (resolved, None)
  | path :: args' =>
      if String.eqb path "" then resolve recurse root args' resolved
      else
        match FS.Stat (GOOS rt) root path with
        | None => ([], Some ErrNotExist)
        | Some stat =>
            if negb (Filepath.is_dir stat)
            then resolve recurse root args' (resolved ++ [path])
            else
              let '(resolved', _) :=
                Filepath.Walk (list string) (GOOS rt) (walker recurse)
                  root path resolved in
              resolve recurse root args' resolved'
        end
  end.

Definition ResolvePaths (o : options) (root : node) (args : list string)
  : list string * option error :=
  let recurse := if NoRecurse o then Some SkipDir else None in
  resolve recurse root args [].

(** *** Copying *)

(** [io.Copy] into a file that takes [quota] bytes: what reaches the
    file and the error of the write that did not fit. *)
Definition io_Copy (quota : option nat) (data : list byte)
  : list byte * option error :=
  match quota with
  | None => (data, None)
  | Some q =>
      if length data <=? q then (data, None)
      else (firstn q data, Some ErrNoSpace)
  end.

(** [Copy(src, dst)] of part_000 and part_001. *)
Definition Copy (w : World) (src dst : string) : World * option error :=
  match FS.Stat (GOOS rt) (fs w) src with        (* in, err := os.Open(src) *)
  | None => (w, Some ErrNotExist)
  | Some _ =>
      match FS.Create (GOOS rt) (fs w) dst with  (* out, err := os.Create(dst) *)
      | Err e => (w, Some e)
      | Ok fs1 =>
          (* _, err = io.Copy(out, in) *)
          match FS.Stat (GOOS rt) fs1 src with
          | Some (Regular data) =>
              let '(written, err) := io_Copy (quota w) data in
              (with_fs w (FS.Write (GOOS rt) fs1 dst written), err)
              (* return out.Close(): nil *)
          | Some (Directory _ _) => (with_fs w fs1, Some ErrIsDir)
          | None => (with_fs w fs1, Some ErrInvalid)
          end
      end
  end.

(** The size of the buffer of [bufio.NewWriter]. *)
Definition defaultBufSize : nat := 4096.

(** [io.Copy(writer, reader)] in [copyFile], [writer] a [bufio.Writer]
    that is never flushed.  Where the file implements [io.ReaderFrom]
    the writer, its buffer empty, hands the whole copy to the file.
    Otherwise the writer writes its buffer out each time it is full,
    and what is in it at the end of the input stays there. *)
Definition bufio_Copy (quota : option nat) (data : list byte)
  : list byte * (nat * option error) :=
  if FileReaderFrom rt then
    let '(written, err) := io_Copy quota data in
    (written, (length written, err))
  else
    let full := defaultBufSize * (length data / defaultBufSize) in
    let '(written, err) := io_Copy quota (firstn full data) in
    match err with
    | None => (written, (length data, None))
    | Some e =>
        (written, (defaultBufSize * (length written / defaultBufSize + 1), Some e))
    end.

(** [copyFile(dstFileName, srcFileName)] of watch.go. *)
Definition copyFile (w : World) (dstFileName srcFileName : string)
  : World * (nat * option error) :=
  let srcFile := FS.Stat (GOOS rt) (fs w) srcFileName in  (* os.Open *)
  let w :=
    match srcFile with
    | None => say watch_go Stdout (OpenFileError ErrNotExist) w
    | Some _ => w
    end in
  (* os.OpenFile(dstFileName, os.O_WRONLY|os.O_CREATE, 0666) *)
  match FS.OpenFile (GOOS rt) false (fs w) dstFileName with
  | Err e => (say watch_go Stdout (OpenFileError e) w, (0, Some e))
  | Ok fs1 =>
      match srcFile with
      | None => (with_fs w fs1, (0, Some ErrInvalid))   (* reading a nil file *)
      | Some _ =>
          match FS.Stat (GOOS rt) fs1 srcFileName with
          | Some (Regular data) =>
              let '(written, r) := bufio_Copy (quota w) data in
              (with_fs w (FS.Write (GOOS rt) fs1 dstFileName written), r)
          | Some (Directory _ _) => (with_fs w fs1, (0, Some ErrIsDir))
          | None => (with_fs w fs1, (0, Some ErrInvalid))
          end
      end
  end.

(** *** sync / syncFile *)

Variable v : Variant.

(** A call either returns or aborts on the slice expression. *)
Inductive outcome : Type :=
| Returns (w : World) (err : option error)
| Panics.

(** [sync] of watch.go, [syncFile] of the other two. *)
Definition syncFile (g : Globals) (w : World) (filePath : string) : outcome :=
  if (String.length (copyDir g) =? 0) || negb (IsDir (fs w) (copyDir g))
  then Returns w None
  else
    match newPath (GOOS rt) (copyDir g) filePath with
    | None => Panics
    | Some newPath =>
        if IsDir (fs w) filePath then
          if IsDir (fs w) newPath
          then Returns (say v Stdout (DirExists newPath) w) None
          else let '(fs', err) := mkdirAll (fs w) newPath in
               Returns (with_fs w fs') err
        else if IsFile (fs w) filePath then
          let dirName := Filepath.Dir (GOOS rt) newPath in
          match mkdirAll (fs w) dirName with
          | (fs', Some e) => Returns (with_fs w fs') (Some e)
          | (fs', None) =>
              let w1 := say v Stdout (CopyIn filePath newPath (sleep g))
                          (with_fs w fs') in
              Returns (AfterFunc w1 (sleep g) filePath newPath) None
          end
        else Returns w None
    end.

(** The closure handed to [time.AfterFunc]. *)
Definition delayed (w : World) (t : Timer) : World :=
  if IsFile (fs w) (source t) then
    let '(w', err) :=
      match v with
      | watch_go =>
          let '(w', (_, err)) := copyFile w (dest t) (source t) in (w', err)
      | _ => Copy w (source t) (dest t)
      end in
    match err with
    | Some e => say v Stderr (Failure e) w'
    | None => say v Stdout (CopySuccess (dest t)) w'
    end
  else w.

(** [d] seconds pass: the timers that are due by then run. *)
Definition elapse (d : nat) (w : World) : World :=
  let t := now w + d in
  fold_left delayed
    (filter (fun x => due x <=? t) (timers w))
    {| fs := fs w; quota := quota w; now := t;
       timers := filter (fun x => negb (due x <=? t)) (timers w);
       output := output w |}.

(** *** init *)

Inductive Startup : Type :=
| Exit (code : nat) (w : World)
| Started (g : Globals) (w : World).

(** The test before the "copy target dir is not exists" line. *)
Definition copyDir_missing (root : node) (copyDir : string) : bool :=
  match v with
  | watch_go => (0 <? String.length copyDir) || negb (IsDir root copyDir)
  | _ => (String.length copyDir =? 0) || negb (IsDir root copyDir)
  end.

(** [init], with [os.Args] the program name followed by [args]. *)
Definition init (w : World) (args : list string) : Startup :=
  match args with
  | [] => Exit 0 (say v Stderr Usage w)
  | arg1 :: rest =>
      let '(paths, _) := ResolvePaths opts (fs w) [arg1] in
      if length paths <=? 0 then Exit 2 (say v Stderr Usage w)
      else
        let copyDir :=
          match rest with
          | arg2 :: _ => if IsDir (fs w) arg2 then arg2 else ""
          | [] => ""
          end in
        let w1 := if copyDir_missing (fs w) copyDir
                  then say v Stderr (NotExists copyDir) w
                  else w in
        match ParseDuration rt (Interval opts) with
        | None => Exit 1 (say v Stderr (Failure ErrInvalid) w1)
        | Some i =>
            Started {| paths := paths; copyDir := copyDir; sleep := 10;
                       interval := i |} w1
        end
  end.

End Program.

(** ** Notions for the statements *)

(** The directories whose listing succeeds. *)
Definition listable (n : node) : bool :=
  match n with
  | Directory readable _ => readable
  | Regular _ => false
  end.

(** An [f] that makes regular files, and only where no directory is. *)
Definition on_files (f : option node -> result node) : Prop :=
  forall o x, f o = Ok x ->
    Filepath.is_dir x = false /\
    match o with
    | Some n => Filepath.is_dir n = false
    | None => True
    end.

(** The second command-line argument is there and names a directory. *)
Definition names_directory (rt : Runtime) (root : node) (args : list string)
  : bool :=
  match args with
  | _ :: arg2 :: _ => IsDir rt root arg2
  | _ => false
  end.

(** What the rest of the system does to the tree while a copy waits:
    the entry at [cs] is removed. *)
Fixpoint unlink (n : node) (cs : list string) : node :=
  match n, cs with
  | Directory r es, [c] =>
      Directory r (filter (fun e => negb (String.eqb (fst e) c)) es)
  | Directory r es, c :: cs' =>
      match FS.find_entry c es with
      | Some ch => Directory r (FS.set_entry c (unlink ch cs') es)
      | None => n
      end
  | _, _ => n
  end.

(** The worlds of the examples: /data with a.txt ("hello") and sub, and
    a mirror directory /backup. *)
Module Scenario.

Definition bytes : string -> list byte := list_byte_of_string.

Definition seconds (s : string) : option nat :=
  if String.eqb s "1s" then Some 1 else None.

Definition linux (readerFrom : bool) : Runtime :=
  {| GOOS := "linux"; FileReaderFrom := readerFrom; ParseDuration := seconds |}.

Definition windows : Runtime :=
  {| GOOS := "windows"; FileReaderFrom := true; ParseDuration := seconds |}.

Definition world (root : node) : World :=
  {| fs := root; quota := None; now := 0; timers := []; output := [] |}.

Definition globals (mirror : string) : Globals :=
  {| paths := ["/data"]; copyDir := mirror; sleep := 10; interval := 1 |}.

Definition data : node :=
  Directory true
    [("a.txt", Regular (bytes "hello")); ("sub", Directory true [])].

(** The mirror is empty. *)
Definition fresh : World :=
  world (Directory true [("data", data); ("backup", Directory true [])]).

(** The mirror holds an older, longer a.txt and the directory sub. *)
Definition mirrored : World :=
  world (Directory true
           [("data", data);
            ("backup",
             Directory true
               [("data",
                 Directory true
                   [("a.txt", Regular (bytes "HELLO WORLD"));
                    ("sub", Directory true [])])])]).

(** /data/locked cannot be listed. *)
Definition locked : World :=
  world (Directory true
           [("data",
             Directory true
               [("locked", Directory false [("in", Directory true [])]);
                ("sub", Directory true [])])]).

(** Volumes D: and E: on windows. *)
Definition volumes : World :=
  world (Directory true
           [("D:", Directory true [("data", data)]);
            ("E:", Directory true [("backup", Directory true [])])]).

End Scenario.

(** Repeated calls of [syncFile] on one path, each on the world the call
    before left. *)
Fixpoint syncFile_times (rt : Runtime) (v : Variant) (g : Globals)
    (filePath : string) (n : nat) (w : World) : outcome :=
  match n with
  | 0 => Returns w None
  | S n' =>
      match syncFile rt v g w filePath with
      | Returns w' None => syncFile_times rt v g filePath n' w'
      | o => o
      end
  end.

(** ** The event loop of main *)

(** A file event as the loop reads it: [ev.IsCreate()], [ev.IsAttrib()]
    and [ev.GetFile()]. *)
Record Event : Type := {
  IsCreate : bool;
  IsAttrib : bool;
  GetFile : string
}.

(** What the [select] of the loop receives: an event ([watcher.Event]),
    an error ([watcher.Error]); and, between two of them, the time that
    passes, in which the timers that come due run. *)
Inductive incoming : Type :=
| FromEvent (ev : Event)
| FromError (err : error)
| Pass (d : nat).

(** The world and the events printed so far ([fmt.Fprintln(os.Stdout, ev)],
    [log.Println(ev)]). *)
Record Loop : Type := {
  world : World;
  shown : list Event
}.

Inductive status : Type :=
| Running (l : Loop)
| Exited (code : nat) (l : Loop)
| Aborted.

(** One turn of the loop. *)
Definition receive (rt : Runtime) (v : Variant) (o : options) (g : Globals)
    (l : Loop) (i : incoming) : status :=
  match i with
  | FromEvent ev =>
      let seen := if Quiet o then shown l else shown l ++ [ev] in
      if IsCreate ev || IsAttrib ev then
        match syncFile rt v g (world l) (GetFile ev) with
        | Returns w' (Some err) =>
            Running {| world := say v Stderr (Failure err) w'; shown := seen |}
        | Returns w' None => Running {| world := w'; shown := seen |}
        | Panics => Aborted
        end
      else Running {| world := world l; shown := seen |}
  | FromError err =>
      let l' := {| world := say v Stderr (Failure err) (world l);
                   shown := shown l |} in
      if Halt o then Exited 1 l' else Running l'
  | Pass d => Running {| world := elapse rt v d (world l); shown := shown l |}
  end.

(** The loop over what comes in, until it exits or aborts. *)
Fixpoint serve (rt : Runtime) (v : Variant) (o : options) (g : Globals)
    (l : Loop) (inputs : list incoming) : status :=
  match inputs with
  | [] => Running l
  | i :: inputs' =>
      match receive rt v o g l i with
      | Running l' => serve rt v o g l' inputs'
      | s => s
      end
  end.

(** ** ExecCommand *)

Module Strings.

(** [strings.Split(s, sep)] for a separator of one byte; [acc] is the
    piece being read. *)
Fixpoint Split (sep : ascii) (s acc : string) : list string :=
  match s with
  | EmptyString => [acc]
  | String c s' =>
      if Ascii.eqb c sep then acc :: Split sep s' EmptyString
      else Split sep s' (acc ++ String c EmptyString)%string
  end.

(** [strings.Join(elems, sep)], [sep] of one byte. *)
Fixpoint Join (sep : ascii) (elems : list string) : string :=
  match elems with
  | [] => EmptyString
  | [e] => e
  | e :: rest => (e ++ String sep (Join sep rest))%string
  end.

(** [strings.Contains(s, sep)], [sep] of one byte. *)
Fixpoint has (sep : ascii) (s : string) : bool :=
  match s with
  | EmptyString => false
  | String c s' => Ascii.eqb c sep || has sep s'
  end.

End Strings.

(** [ExecCommand] of watch.go and part_001; [Run name arg] stands for
    [exec.Command(name, arg...)] run to its end.  [None] is the abort of
    [args[0]] on an empty slice. *)
Definition ExecCommand (Run : string -> list string -> option error)
    (o : options) : option (option error) :=
  if String.eqb (OnChange o) "" then Some None
  else
    match Strings.Split " "%char (OnChange o) EmptyString with
    | [] => None
    | name :: arg => Some (Run name arg)
    end.

(** ** Counting *)



(** The last element of a path is a name (not empty, not "."). *)
Definition ends_in_name (os path : string) : bool :=
  FS.is_name (last (FS.fields os path EmptyString) EmptyString).

(** The mirror directory is set and is a directory of [w]: the test at
    the head of [sync] / [syncFile] lets the call through. *)
Definition mirroring (rt : Runtime) (g : Globals) (w : World) : bool :=
  negb (String.length (copyDir g) =? 0) && IsDir rt (fs w) (copyDir g).

(** No separator among the bytes. *)
Definition sepfree (os : string) (l : list ascii) : bool :=
  forallb (fun c => negb (FS.IsPathSeparator os c)) l.

(** More worlds for the examples. *)
Module Cases.

Definition no_recurse : options :=
  {| Help := false; Halt := false; Quiet := false; Interval := "1s";
     NoRecurse := true; Version := false; OnChange := "" |}.

Definition halting : options :=
  {| Help := false; Halt := true; Quiet := false; Interval := "1s";
     NoRecurse := false; Version := false; OnChange := "" |}.

Definition on_change (command : string) : options :=
  {| Help := false; Halt := false; Quiet := false; Interval := "1s";
     NoRecurse := false; Version := false; OnChange := command |}.


(** [Scenario.mirrored] on a device that takes three bytes. *)
Definition tight : World :=
  {| fs := fs Scenario.mirrored; quota := Some 3; now := 0; timers := [];
     output := [] |}.

(** /data with two levels of directories and two files. *)
Definition deep_data : node :=
  Directory true
    [("a.txt", Regular (Scenario.bytes "hello"));
     ("sub",
      Directory true
        [("b.txt", Regular (Scenario.bytes "b"));
         ("x", Directory true []);
         ("y", Directory true [])])].

Definition deep : World :=
  Scenario.world (Directory true [("data", deep_data)]).

Definition created (file : string) : Event :=
  {| IsCreate := true; IsAttrib := false; GetFile := file |}.

Definition loop (w : World) : Loop := {| world := w; shown := [] |}.

End Cases.

(** * Properties *)

(** ** Strings *)

Module GoStringsFacts.
Import GoStrings.

Lemma substring_0_0 (s : string) : substring 0 0 s = EmptyString.
Proof. destruct s; reflexivity. Qed.

Lemma take_skip (n : nat) (s : string) :
  (substring 0 n s ++ skip n s)%string = s.
Proof.
  revert s; induction n as [|n IH]; intros s.
  - now rewrite substring_0_0.
  - destruct s as [|c s]; simpl; [reflexivity|]. now rewrite IH.
Qed.

Lemma prefix_take (n : nat) (s : string) : prefix (substring 0 n s) s = true.
Proof.
  revert s; induction n as [|n IH]; intros s.
  - rewrite substring_0_0. now destruct s.
  - destruct s as [|c s]; simpl; [reflexivity|].
    destruct (ascii_dec c c) as [_|ne]; [apply IH | now elim ne].
Qed.

Lemma length_take (n : nat) (s : string) :
  n <= String.length s -> String.length (substring 0 n s) = n.
Proof.
  revert s; induction n as [|n IH]; intros s H.
  - now rewrite substring_0_0.
  - destruct s as [|c s]; simpl in *; [lia|]. rewrite IH; lia.
Qed.

Lemma Index_prefix (s old : string) : prefix old s = true -> Index s old = Some 0.
Proof. intros H. destruct s; cbn [Index]; now rewrite H. Qed.

(** Replacing the first [n] bytes of [s], once, puts [new] in their
    place: the first occurrence of a prefix is the prefix. *)
Lemma Replace1_prefix (s new : string) (n : nat) :
  n <= String.length s ->
  Replace1 s (substring 0 n s) new = (new ++ skip n s)%string.
Proof.
  intros Hn. unfold Replace1.
  destruct (String.eqb_spec (substring 0 n s) new) as [E|_].
  - rewrite <- E. symmetry. apply take_skip.
  - rewrite (Index_prefix _ _ (prefix_take n s)), substring_0_0.
    now rewrite (length_take _ _ Hn).
Qed.

Lemma slice_Some (s : string) (lo hi : nat) :
  slice s lo hi <> None <-> lo <= hi <= String.length s.
Proof.
  unfold slice.
  destruct (Nat.leb_spec lo hi), (Nat.leb_spec hi (String.length s)); simpl;
    split; intros; try lia; congruence.
Qed.

End GoStringsFacts.

Lemma newPath_windows (copyDir filePath : string) :
  newPath "windows" copyDir filePath =
    if 2 <=? String.length filePath
    then Some (copyDir ++ GoStrings.skip 2 filePath)%string
    else None.
Proof.
  unfold newPath, GoStrings.slice.
  change (String.eqb "windows" "windows") with true. cbv iota.
  change (Nat.leb 0 2) with true. rewrite Nat.sub_0_r, andb_true_l.
  destruct (Nat.leb_spec 2 (String.length filePath)) as [H|H]; [|reflexivity].
  now rewrite GoStringsFacts.Replace1_prefix.
Qed.

Lemma newPath_other (GOOS copyDir filePath : string) :
  GOOS <> "windows" -> newPath GOOS copyDir filePath = Some (copyDir ++ filePath)%string.
Proof.
  intros H. unfold newPath. now destruct (String.eqb_spec GOOS "windows").
Qed.

(** ** The mirror-path mapping *)

(** A timer left by [syncFile] is an old one, or its destination is the
    mirror path of the source: the world has no part in it. *)
Lemma syncFile_timers (rt : Runtime) (v : Variant) (g : Globals) (w w' : World)
    (filePath : string) (err : option error) :
  syncFile rt v g w filePath = Returns w' err ->
  forall t, In t (timers w') ->
    In t (timers w) \/
    (source t = filePath /\
     newPath (GOOS rt) (copyDir g) filePath = Some (dest t)).
Proof.
  unfold syncFile. intros H t Ht.
  destruct (_ || _); [injection H as <- _; now left|].
  destruct (newPath _ _ _) as [np|]; [|discriminate].
  destruct (IsDir rt (fs w) filePath).
  - destruct (IsDir rt (fs w) np).
    + injection H as <- _. now left.
    + destruct (mkdirAll _ _ _) as [fs' e]. injection H as <- _. now left.
  - destruct (IsFile _ _ _); [|injection H as <- _; now left].
    destruct (mkdirAll _ _ _) as [fs' [e|]]; injection H as <- _; [now left|].
    simpl in Ht. apply in_app_or in Ht as [Ht|[<-|[]]]; [now left|now right].
Qed.

(** C3: the mirror path is a function of the platform, the mirror
    directory and the source path alone.  On windows the first two bytes
    of the source path give way to the mirror directory; elsewhere the
    mirror directory is put before the source path; and the destination
    [syncFile] schedules a copy for is that path whatever the world it
    runs in, so equal inputs give equal destinations. *)
Theorem newPath_mapping (os mirrorDir sourcePath : string) :
  (os = "windows" -> 2 <= String.length sourcePath ->
   newPath os mirrorDir sourcePath
   = Some (mirrorDir ++ GoStrings.skip 2 sourcePath)%string) /\
  (os <> "windows" ->
   newPath os mirrorDir sourcePath = Some (mirrorDir ++ sourcePath)%string) /\
  (forall rt v g w1 w1' e1 w2 w2' e2 t1 t2,
      GOOS rt = os -> copyDir g = mirrorDir ->
      syncFile rt v g w1 sourcePath = Returns w1' e1 ->
      syncFile rt v g w2 sourcePath = Returns w2' e2 ->
      In t1 (timers w1') -> ~ In t1 (timers w1) ->
      In t2 (timers w2') -> ~ In t2 (timers w2) ->
      dest t1 = dest t2).
Proof.
  split; [|split].
  - intros -> H. rewrite newPath_windows.
    now destruct (Nat.leb_spec 2 (String.length sourcePath)); [|lia].
  - apply newPath_other.
  - intros rt v g w1 w1' e1 w2 w2' e2 t1 t2 <- <- S1 S2 I1 N1 I2 N2.
    destruct (syncFile_timers _ _ _ _ _ _ _ S1 t1 I1) as [?|[_ P1]]; [easy|].
    destruct (syncFile_timers _ _ _ _ _ _ _ S2 t2 I2) as [?|[_ P2]]; [easy|].
    congruence.
Qed.

(** C10: on windows the slice [filePath[0:2]] is in bounds exactly for
    the paths of two bytes or more, and a call of [syncFile] that gets to
    the mirror-path computation (a mirror directory is set and exists)
    returns for those paths and aborts for the shorter ones. *)
Theorem newPath_slice_bounds (rt : Runtime) (v : Variant) (g : Globals)
    (w : World) (filePath : string) :
  GOOS rt = "windows" ->
  String.length (copyDir g) <> 0 ->
  IsDir rt (fs w) (copyDir g) = true ->
  (GoStrings.slice filePath 0 2 <> None <-> 2 <= String.length filePath) /\
  (syncFile rt v g w filePath <> Panics <-> 2 <= String.length filePath).
Proof.
  intros Hos Hlen Hdir. split.
  - rewrite GoStringsFacts.slice_Some. lia.
  - unfold syncFile. rewrite Hdir, Hos, newPath_windows.
    destruct (Nat.eqb_spec (String.length (copyDir g)) 0) as [|_]; [easy|].
    change (false || negb true) with false. cbv iota. clear Hdir.
    destruct (Nat.leb_spec 2 (String.length filePath)) as [H|H].
    + split; [intros _; exact H|intros _].
      destruct (IsDir rt (fs w) filePath); [destruct (IsDir rt (fs w) _)|];
        try easy.
      * now destruct (mkdirAll _ _ _).
      * destruct (IsFile _ _ _); [|easy].
        now destruct (mkdirAll _ _ _) as [? [|]].
    + split; [easy|lia].
Qed.

(** ** syncFile *)

(** C4: with no mirror directory set, or one that is not an existing
    directory, [syncFile] returns nil and leaves the world as it was:
    nothing is created in the file system (the mirror root included) and
    no copy is scheduled. *)
Theorem syncFile_without_mirror (rt : Runtime) (v : Variant) (g : Globals)
    (w : World) (filePath : string) :
  copyDir g = "" \/ IsDir rt (fs w) (copyDir g) = false ->
  syncFile rt v g w filePath = Returns w None.
Proof.
  intros [H|H]; unfold syncFile; rewrite H; [reflexivity|].
  now rewrite orb_true_r.
Qed.

Lemma syncFile_dir_exists (rt : Runtime) (v : Variant) (g : Globals)
    (w : World) (filePath np : string) :
  IsDir rt (fs w) filePath = true ->
  newPath (GOOS rt) (copyDir g) filePath = Some np ->
  IsDir rt (fs w) np = true ->
  exists w', syncFile rt v g w filePath = Returns w' None /\
             fs w' = fs w /\ timers w' = timers w /\
             quota w' = quota w /\ now w' = now w.
Proof.
  intros Hsrc Hnp Hdst. unfold syncFile.
  destruct (_ || _); [now exists w|].
  rewrite Hnp, Hsrc, Hdst. now eexists.
Qed.

(** C5: [syncFile] on a directory whose mirror path is already a
    directory returns nil, as often as it is called, and the file system
    and the scheduled copies stay as they were. *)
Theorem syncFile_dir_idempotent (rt : Runtime) (v : Variant) (g : Globals)
    (w : World) (filePath np : string) (n : nat) :
  IsDir rt (fs w) filePath = true ->
  newPath (GOOS rt) (copyDir g) filePath = Some np ->
  IsDir rt (fs w) np = true ->
  exists w', syncFile_times rt v g filePath n w = Returns w' None /\
             fs w' = fs w /\ timers w' = timers w.
Proof.
  intros Hsrc Hnp. revert w Hsrc.
  induction n as [|n IH]; intros w Hsrc Hdst; [now exists w|].
  destruct (syncFile_dir_exists rt v g w filePath np Hsrc Hnp Hdst)
    as (w1 & E & Hfs & Ht & _).
  simpl. rewrite E.
  destruct (IH w1) as (w' & E' & Hfs' & Ht'); [now rewrite Hfs..|].
  exists w'. repeat split; congruence.
Qed.

(** ** ResolvePaths *)

(** Induction on a tree, with the property in hand for every entry of a
    directory. *)
Lemma node_ind (P : node -> Prop) :
  (forall data, P (Regular data)) ->
  (forall readable entries,
      Forall (fun e => P (snd e)) entries -> P (Directory readable entries)) ->
  forall n, P n.
Proof.
  intros HR HD.
  fix IH 1. intros [data|readable entries]; [apply HR|apply HD].
  induction entries as [|[name child] rest IHrest]; constructor;
    [apply IH|apply IHrest].
Qed.

Section Resolve.

Variable rt : Runtime.

(** Under no-recurse the walk ends at its root: a listable directory
    is recorded and skipped. *)
Lemma walk_NoRecurse (path : string) (info : node) (resolved : list string) :
  Filepath.walk (list string) (GOOS rt) (walker (Some SkipDir)) path info resolved
  = if listable info then (resolved ++ [path], Some SkipDir)
    else match info with
         | Regular _ => (resolved, Some SkipDir)
         | Directory _ _ => (resolved, Some ErrPermission)
         end.
Proof. destruct info as [data|[|] entries]; reflexivity. Qed.

(** With recursion the walk only appends, and a listable root comes
    first. *)
Lemma walk_recurse (info : node) :
  forall path resolved, exists more,
    fst (Filepath.walk (list string) (GOOS rt) (walker None) path info resolved)
    = resolved ++ (if listable info then path :: more else more).
Proof.
  induction info as [data|readable entries IH] using node_ind;
    intros path resolved.
  - exists []. simpl. now rewrite app_nil_r.
  - destruct readable; [|exists []; simpl; now rewrite app_nil_r].
    cbn [Filepath.walk walker listable].
    match goal with
    | |- exists more, fst (?loop entries _) = _ =>
        enough (forall st, exists more, fst (loop entries st) = st ++ more) as H
    end.
    { destruct (H (resolved ++ [path])) as [more E]. exists more.
      rewrite E, <- app_assoc. reflexivity. }
    induction IH as [|[name child] rest Hchild _ IHrest]; intros st.
    + exists []. simpl. now rewrite app_nil_r.
    + simpl in Hchild.
      destruct (Hchild (Filepath.Join (GOOS rt) path name) st) as [m1 E1].
      destruct (Filepath.walk _ _ _ _ child st) as [st' err] eqn:W.
      simpl in E1. subst st'.
      destruct (IHrest (st ++ if listable child then
                 Filepath.Join (GOOS rt) path name :: m1 else m1)) as [m2 E2].
      destruct err as [e|]; [destruct (_ || _)|];
        try (rewrite E2, <- app_assoc); eexists; reflexivity.
Qed.

Lemma fst_Walk (recurse : option error) (root info : node) (path : string)
    (resolved : list string) :
  FS.Stat (GOOS rt) root path = Some info ->
  fst (Filepath.Walk (list string) (GOOS rt) (walker recurse) root path resolved)
  = fst (Filepath.walk (list string) (GOOS rt) (walker recurse) path info resolved).
Proof.
  intros E. unfold Filepath.Walk. rewrite E.
  destruct (Filepath.walk _ _ _ _ _ _) as [st [[]|]]; reflexivity.
Qed.

(** The two runs of the loop over [args], side by side. *)
Lemma resolve_incl (root : node) (args : list string) :
  forall r1 r2, incl r1 r2 ->
    snd (resolve rt (Some SkipDir) root args r1) = snd (resolve rt None root args r2) /\
    incl (fst (resolve rt (Some SkipDir) root args r1))
         (fst (resolve rt None root args r2)).
Proof.
  induction args as [|path args IH]; intros r1 r2 Hr; [now split|].
  cbn [resolve]. destruct (String.eqb path ""); [now apply IH|].
  destruct (FS.Stat (GOOS rt) root path) as [stat|] eqn:E; [|now split].
  destruct (negb (Filepath.is_dir stat)).
  - apply IH. intros x Hx. apply in_or_app.
    apply in_app_or in Hx as [Hx|Hx]; [left; now apply Hr|now right].
  - pose proof (fst_Walk (Some SkipDir) root stat path r1 E) as W1.
    pose proof (fst_Walk None root stat path r2 E) as W2.
    destruct (Filepath.Walk _ _ (walker (Some SkipDir)) _ _ _) as [a1 e1].
    destruct (Filepath.Walk _ _ (walker None) _ _ _) as [a2 e2].
    simpl in W1, W2. apply IH. subst a1 a2.
    rewrite walk_NoRecurse.
    destruct (walk_recurse stat path r2) as [more ->].
    intros x Hx. apply in_or_app.
    destruct (listable stat); simpl in Hx.
    + apply in_app_or in Hx as [Hx|[<-|[]]]; [left; now apply Hr|].
      right. now left.
    + left. apply Hr. now destruct stat.
Qed.

(** C6: what [ResolvePaths] returns without recursion is among what it
    returns with it, with the same error; and for a listable directory
    as the only argument, no-recurse returns that directory alone,
    whatever is below it. *)
Theorem ResolvePaths_recursion_superset (o_rec o_norec : options)
    (root : node) (args : list string) :
  NoRecurse o_rec = false ->
  NoRecurse o_norec = true ->
  snd (ResolvePaths rt o_norec root args) = snd (ResolvePaths rt o_rec root args) /\
  incl (fst (ResolvePaths rt o_norec root args))
       (fst (ResolvePaths rt o_rec root args)) /\
  (forall path entries,
      FS.Stat (GOOS rt) root path = Some (Directory true entries) ->
      ResolvePaths rt o_norec root [path] = ([path], None)).
Proof.
  intros Hrec Hno. unfold ResolvePaths. rewrite Hrec, Hno.
  split; [|split]; try now apply resolve_incl.
  intros path entries E. cbn [resolve].
  assert (String.eqb path "" = false) as ->.
  { destruct (String.eqb_spec path ""); [|reflexivity].
    subst. discriminate E. }
  rewrite E. simpl negb. cbv iota.
  unfold Filepath.Walk. rewrite E, walk_NoRecurse. reflexivity.
Qed.

(** C7, as amended: an argument other than the empty string that
    [os.Stat] does not find makes [ResolvePaths] return the error and
    no path at all, whatever the other arguments gave. *)
Theorem ResolvePaths_missing (o : options) (root : node)
    (args : list string) (path : string) :
  In path args ->
  path <> "" ->
  FS.Stat (GOOS rt) root path = None ->
  ResolvePaths rt o root args = ([], Some ErrNotExist).
Proof.
  intros Hin Hne Hstat. unfold ResolvePaths.
  enough (forall resolved,
             resolve rt (if NoRecurse o then Some SkipDir else None)
               root args resolved = ([], Some ErrNotExist)) as H by apply H.
  induction args as [|a args IH]; intros resolved; [easy|].
  cbn [resolve]. destruct (String.eqb_spec a "") as [->|Ha].
  - destruct Hin as [<-|Hin]; [easy|]. now apply IH.
  - destruct (FS.Stat (GOOS rt) root a) as [stat|] eqn:E; [|reflexivity].
    destruct Hin as [->|Hin]; [congruence|].
    destruct (negb _); [now apply IH|].
    destruct (Filepath.Walk _ _ _ _ _ _). now apply IH.
Qed.

(** C9: when [os.Stat] finds every argument, [ResolvePaths] returns a
    nil error, whatever [filepath.Walk] returned on the way. *)
Theorem ResolvePaths_nil_error (o : options) (root : node) (args : list string) :
  Forall (fun path => FS.Stat (GOOS rt) root path <> None) args ->
  snd (ResolvePaths rt o root args) = None.
Proof.
  unfold ResolvePaths. generalize (@nil string) as resolved.
  induction args as [|a args IH]; intros resolved Hall; [reflexivity|].
  inversion Hall as [|? ? Ha Hrest]; subst.
  cbn [resolve]. destruct (String.eqb a ""); [now apply IH|].
  destruct (FS.Stat (GOOS rt) root a) as [stat|]; [|easy].
  destruct (negb _); [now apply IH|].
  destruct (Filepath.Walk _ _ _ _ _ _). now apply IH.
Qed.

End Resolve.

(** ** The file system *)

Module FSFacts.
Import FS.

Lemma find_set_same (c : string) (x : node) (es : list (string * node)) :
  find_entry c (set_entry c x es) = Some x.
Proof.
  induction es as [|[k m] es IH]; simpl.
  - now rewrite String.eqb_refl.
  - destruct (String.eqb_spec c k) as [->|ne]; simpl.
    + now rewrite String.eqb_refl.
    + now destruct (String.eqb_spec c k).
Qed.

Lemma find_set_other (c c2 : string) (x : node) (es : list (string * node)) :
  c2 <> c -> find_entry c2 (set_entry c x es) = find_entry c2 es.
Proof.
  intros ne. induction es as [|[k m] es IH]; simpl.
  - now destruct (String.eqb_spec c2 c).
  - destruct (String.eqb_spec c k) as [->|nk]; simpl.
    + now destruct (String.eqb_spec c2 k).
    + now rewrite IH.
Qed.

(** What [alter] leaves at its place is what [f] made of what was
    there. *)
Lemma alter_lookup (f : option node -> result node) (cs : list string) :
  forall n n', alter f n cs = Ok n' ->
    exists x, f (lookup n cs) = Ok x /\ lookup n' cs = Some x.
Proof.
  induction cs as [|c cs IH]; intros n n' H; simpl in H.
  - now exists n'.
  - destruct n as [d|r es]; [discriminate|]. simpl.
    destruct (find_entry c es) as [ch|] eqn:F.
    + destruct (alter f ch cs) as [ch'|e] eqn:A; [|discriminate].
      injection H as <-. destruct (IH _ _ A) as (x & Hf & Hl).
      exists x. now rewrite find_set_same.
    + destruct cs; [|discriminate].
      destruct (f None) as [x|e] eqn:Hf; [|discriminate].
      injection H as <-. exists x. now rewrite find_set_same.
Qed.

(** [alter] goes through where there is a node that [f] takes. *)
Lemma alter_ok (f : option node -> result node) (cs : list string) :
  forall n x y, lookup n cs = Some x -> f (Some x) = Ok y ->
    exists n', alter f n cs = Ok n'.
Proof.
  induction cs as [|c cs IH]; intros n x y Hl Hf; simpl in *.
  - injection Hl as ->. now exists y.
  - destruct n as [d|r es]; [discriminate|].
    destruct (find_entry c es) as [ch|]; [|discriminate].
    destruct (IH _ _ _ Hl Hf) as [ch' ->]. now eexists.
Qed.

Lemma lookup_below_file (n : node) (c : string) (cs : list string) :
  Filepath.is_dir n = false -> lookup n (c :: cs) = None.
Proof. now destruct n. Qed.

(** Such an [alter] leaves the regular files at the other places as
    they were. *)
Lemma alter_other (f : option node -> result node) (cs : list string) :
  on_files f ->
  forall n n' cs2 d, alter f n cs = Ok n' -> cs2 <> cs ->
    (lookup n' cs2 = Some (Regular d) <-> lookup n cs2 = Some (Regular d)).
Proof.
  intros Hf. induction cs as [|c cs IH]; intros n n' cs2 d H ne.
  - simpl in H. destruct (Hf _ _ H) as [Hn' Hn].
    destruct cs2 as [|c2 cs2]; [easy|].
    now rewrite !lookup_below_file.
  - destruct n as [d0|r es]; [discriminate|]. simpl in H.
    destruct (find_entry c es) as [ch|] eqn:F.
    + destruct (alter f ch cs) as [ch'|e] eqn:A; [|discriminate].
      injection H as <-.
      destruct cs2 as [|c2 cs2]; [easy|]. simpl.
      destruct (String.eqb_spec c2 c) as [->|nc].
      * rewrite find_set_same, F. apply (IH _ _ _ _ A). congruence.
      * now rewrite find_set_other.
    + destruct cs; [|discriminate].
      destruct (f None) as [x|e] eqn:Hx; [|discriminate].
      injection H as <-. destruct (Hf _ _ Hx) as [Hdir _].
      destruct cs2 as [|c2 cs2]; [easy|]. simpl.
      destruct (String.eqb_spec c2 c) as [->|nc].
      * rewrite find_set_same, F.
        destruct cs2 as [|c3 cs2]; [easy|].
        now rewrite lookup_below_file.
      * now rewrite find_set_other.
Qed.

Lemma open_write_on_files (trunc : bool) : on_files (open_write trunc).
Proof. intros [[d|r es]|] x H; simpl in H; inversion H; now split. Qed.

Lemma write_at_on_files (data : list byte) : on_files (write_at data).
Proof. intros [[d|r es]|] x H; simpl in H; inversion H; now split. Qed.

(** After [OpenFile] there is a regular file at the path: an empty
    one under O_TRUNC. *)
Lemma OpenFile_Stat (os path : string) (trunc : bool) (root root' : node) :
  OpenFile os trunc root path = Ok root' ->
  exists d, Stat os root' path = Some (Regular d) /\
            (trunc = true -> d = []).
Proof.
  unfold OpenFile, Stat. destruct (String.eqb path ""); [discriminate|].
  intros H. destruct (alter_lookup _ _ _ _ H) as (x & Hf & Hl).
  rewrite Hl. destruct (lookup root _) as [[d|r es]|]; simpl in Hf;
    inversion Hf; subst; eexists; (split; [reflexivity|]);
    now intros ->.
Qed.

(** Writing to a regular file puts the bytes at its start. *)
Lemma Write_Stat (os path : string) (root : node) (old data : list byte) :
  Stat os root path = Some (Regular old) ->
  Stat os (Write os root path data) path
  = Some (Regular (data ++ skipn (length data) old)).
Proof.
  unfold Stat, Write. destruct (String.eqb path ""); [discriminate|].
  intros H.
  destruct (alter_ok (write_at data) _ _ _ _ H eq_refl) as [n' A].
  rewrite A. destruct (alter_lookup _ _ _ _ A) as (x & Hf & Hl).
  rewrite H in Hf. simpl in Hf. now injection Hf as <-.
Qed.

End FSFacts.

(** ** The copy *)

Section CopyFacts.

Variable rt : Runtime.

Lemma Stat_after_alter (f : option node -> result node) (root root' : node)
    (src dst : string) (d : list byte) :
  on_files f ->
  FS.alter f root (FS.components (GOOS rt) dst) = Ok root' ->
  FS.components (GOOS rt) src <> FS.components (GOOS rt) dst ->
  (FS.Stat (GOOS rt) root' src = Some (Regular d) <->
   FS.Stat (GOOS rt) root src = Some (Regular d)).
Proof.
  intros Hf A ne. unfold FS.Stat. destruct (String.eqb src ""); [easy|].
  now apply (FSFacts.alter_other f _ Hf _ _ _ _ A).
Qed.

Lemma Create_alter (root root' : node) (dst : string) :
  FS.Create (GOOS rt) root dst = Ok root' ->
  FS.alter (FS.open_write true) root (FS.components (GOOS rt) dst) = Ok root'.
Proof.
  unfold FS.Create, FS.OpenFile. now destruct (String.eqb dst "").
Qed.

Lemma io_Copy_nil (q : option nat) (data written : list byte) :
  io_Copy q data = (written, None) -> written = data.
Proof.
  unfold io_Copy. destruct q as [q|]; [destruct (_ <=? _)|]; congruence.
Qed.

(** [Copy] returns nil only with the destination holding the bytes of
    the source, all of them and nothing else. *)
Lemma Copy_nil (w w' : World) (src dst : string) :
  Copy rt w src dst = (w', None) ->
  FS.components (GOOS rt) src <> FS.components (GOOS rt) dst ->
  exists data,
    FS.Stat (GOOS rt) (fs w) src = Some (Regular data) /\
    FS.Stat (GOOS rt) (fs w') dst = Some (Regular data).
Proof.
  unfold Copy. intros H ne.
  destruct (FS.Stat (GOOS rt) (fs w) src) as [s|] eqn:S; [|discriminate].
  destruct (FS.Create (GOOS rt) (fs w) dst) as [fs1|e] eqn:C; [|discriminate].
  destruct (FS.Stat (GOOS rt) fs1 src) as [[data|r es]|] eqn:S1;
    try discriminate.
  destruct (io_Copy (quota w) data) as [written err] eqn:IO.
  injection H as <- ->. apply io_Copy_nil in IO as ->.
  exists data. split.
  - rewrite <- S. symmetry.
    apply (Stat_after_alter _ _ _ _ _ _ (FSFacts.open_write_on_files true)
             (Create_alter _ _ _ C) ne) in S1.
    congruence.
  - destruct (FSFacts.OpenFile_Stat _ _ _ _ _ C) as (d & Hd & Hnil).
    rewrite (Hnil eq_refl) in Hd. simpl.
    rewrite (FSFacts.Write_Stat _ _ _ _ data Hd).
    now rewrite skipn_nil, app_nil_r.
Qed.

(** A regular source whose bytes fit, and a destination that can be
    created: [Copy] returns nil. *)
Lemma Copy_regular (w : World) (src dst : string) (data : list byte)
    (fs1 : node) :
  FS.Stat (GOOS rt) (fs w) src = Some (Regular data) ->
  FS.Create (GOOS rt) (fs w) dst = Ok fs1 ->
  FS.components (GOOS rt) src <> FS.components (GOOS rt) dst ->
  (forall q, quota w = Some q -> length data <= q) ->
  exists w', Copy rt w src dst = (w', None).
Proof.
  intros S C ne Hq. unfold Copy. rewrite S, C.
  apply (Stat_after_alter _ _ _ _ _ _ (FSFacts.open_write_on_files true)
           (Create_alter _ _ _ C) ne) in S.
  rewrite S. unfold io_Copy. destruct (quota w) as [q|]; [|now eexists].
  destruct (Nat.leb_spec (length data) q) as [_|Hlt]; [now eexists|].
  specialize (Hq q eq_refl). lia.
Qed.

(** A write that does not fit is an error of [Copy]. *)
Lemma Copy_no_space (w : World) (src dst : string) (data : list byte)
    (fs1 : node) (q : nat) :
  FS.Stat (GOOS rt) (fs w) src = Some (Regular data) ->
  FS.Create (GOOS rt) (fs w) dst = Ok fs1 ->
  FS.components (GOOS rt) src <> FS.components (GOOS rt) dst ->
  quota w = Some q -> q < length data ->
  exists w', Copy rt w src dst = (w', Some ErrNoSpace).
Proof.
  intros S C ne Hq Hlt. unfold Copy. rewrite S, C.
  apply (Stat_after_alter _ _ _ _ _ _ (FSFacts.open_write_on_files true)
           (Create_alter _ _ _ C) ne) in S.
  rewrite S, Hq. unfold io_Copy.
  destruct (Nat.leb_spec (length data) q); [lia|now eexists].
Qed.

Lemma Copy_output (w : World) (src dst : string) :
  output (fst (Copy rt w src dst)) = output w.
Proof.
  unfold Copy. destruct (FS.Stat _ _ src); [|reflexivity].
  destruct (FS.Create _ _ _); [|reflexivity].
  destruct (FS.Stat _ _ src) as [[d|r es]|]; try reflexivity.
  now destruct (io_Copy _ _).
Qed.

(** The closure of part_000 and part_001 on a source that is no
    directory: either it reports the error of [Copy], or it reports
    success and the destination holds the whole of the source. *)
Lemma delayed_Copy (v : Variant) (w : World) (t : Timer) :
  v <> watch_go ->
  IsFile rt (fs w) (source t) = true ->
  FS.components (GOOS rt) (source t) <> FS.components (GOOS rt) (dest t) ->
  let w' := delayed rt v w t in
  (exists e, output w' = output w ++ [(line v Stderr, Failure e)]) \/
  (output w' = output w ++ [(line v Stdout, CopySuccess (dest t))] /\
   exists data,
     FS.Stat (GOOS rt) (fs w) (source t) = Some (Regular data) /\
     FS.Stat (GOOS rt) (fs w') (dest t) = Some (Regular data)).
Proof.
  intros Hv Hfile ne. unfold delayed. rewrite Hfile.
  pose proof (Copy_output w (source t) (dest t)) as Hout.
  destruct v; [contradiction| |];
    (destruct (Copy rt w (source t) (dest t)) as [w' [e|]] eqn:C;
     simpl in Hout;
     [ left; exists e; simpl; now rewrite Hout
     | right; split; [simpl; now rewrite Hout|];
       destruct (Copy_nil _ _ _ _ C ne) as (data & S & D); now exists data ]).
Qed.

(** The closure on a source that is gone: [IsFile] holds of a path
    that names nothing, the copy is tried, and its error is
    reported. *)
Lemma delayed_missing_source (v : Variant) (w : World) (t : Timer) :
  FS.Stat (GOOS rt) (fs w) (source t) = None ->
  exists lines e,
    output (delayed rt v w t) = lines ++ [(line v Stderr, Failure e)].
Proof.
  intros S. unfold delayed, IsFile, IsDir. rewrite S. simpl negb. cbv iota.
  destruct v.
  - unfold copyFile. rewrite S.
    destruct (FS.OpenFile _ _ _ _) as [fs1|e]; simpl; eexists; eexists;
      reflexivity.
  - unfold Copy. rewrite S. simpl. now exists (output w), ErrNotExist.
  - unfold Copy. rewrite S. simpl. now exists (output w), ErrNotExist.
Qed.

End CopyFacts.

(** [copyFile] on an existing destination, the copy handed to the file
    and nothing in its way: nil is returned, and the destination holds
    the source followed by what the old file had beyond its length. *)
Lemma copyFile_no_truncate (rt : Runtime) (w : World) (src dst : string)
    (data old : list byte) :
  FileReaderFrom rt = true ->
  quota w = None ->
  FS.Stat (GOOS rt) (fs w) src = Some (Regular data) ->
  FS.Stat (GOOS rt) (fs w) dst = Some (Regular old) ->
  FS.components (GOOS rt) src <> FS.components (GOOS rt) dst ->
  exists w',
    copyFile rt w dst src = (w', (length data, None)) /\
    FS.Stat (GOOS rt) (fs w') dst
    = Some (Regular (data ++ skipn (length data) old)).
Proof.
  intros Hrf Hq S D ne. unfold copyFile, bufio_Copy, io_Copy.
  rewrite S, Hrf, Hq.
  assert (dst <> "") as Hdst by (intros ->; discriminate D).
  unfold FS.OpenFile. destruct (String.eqb_spec dst ""); [easy|].
  unfold FS.Stat in D. destruct (String.eqb dst "") eqn:E; [discriminate|].
  destruct (FSFacts.alter_ok (FS.open_write false) _ _ _ _ D eq_refl)
    as [fs1 A].
  rewrite A.
  destruct (FSFacts.alter_lookup _ _ _ _ A) as (x & Hx & L).
  rewrite D in Hx. simpl in Hx. injection Hx as <-.
  apply (Stat_after_alter rt _ _ _ _ _ _ (FSFacts.open_write_on_files false)
           A ne) in S.
  rewrite S. eexists. split; [reflexivity|]. simpl.
  apply FSFacts.Write_Stat. unfold FS.Stat. now rewrite E.
Qed.

(** ** init *)

Section InitFacts.

Variable rt : Runtime.

Lemma IsDir_length (root : node) (path : string) :
  IsDir rt root path = true -> (String.length path =? 0) = false.
Proof. destruct path; [discriminate|reflexivity]. Qed.

(** part_000 and part_001: the line is there exactly when the second
    argument names no directory, and mirroring is then off. *)
Lemma init_diagnostic (v : Variant) (w w' : World) (args : list string)
    (g : Globals) :
  v <> watch_go ->
  init rt v w args = Started g w' ->
  if names_directory rt (fs w) args
  then output w' = output w /\ IsDir rt (fs w) (copyDir g) = true
  else output w' = output w ++ [(Stderr, NotExists "")] /\ copyDir g = "".
Proof.
  intros Hv. unfold init, names_directory.
  destruct args as [|arg1 rest]; [discriminate|].
  destruct (ResolvePaths _ _ _ _) as [ps e].
  destruct (length ps <=? 0); [discriminate|].
  assert (copyDir_missing rt v (fs w) "" = true) as M0 by now destruct v.
  destruct rest as [|arg2 rest]; [|destruct (IsDir rt (fs w) arg2) eqn:D].
  - rewrite M0. destruct (ParseDuration _ _); [|discriminate].
    intros H. injection H as <- <-. now destruct v.
  - assert (copyDir_missing rt v (fs w) arg2 = false) as ->.
    { destruct v; [contradiction| |]; simpl;
        now rewrite D, (IsDir_length _ _ D). }
    destruct (ParseDuration _ _); [|discriminate].
    intros H. now injection H as <- <-.
  - rewrite M0. destruct (ParseDuration _ _); [|discriminate].
    intros H. injection H as <- <-. now destruct v.
Qed.

(** watch.go: the line is there after every start. *)
Lemma init_diagnostic_watch_go (w w' : World) (args : list string)
    (g : Globals) :
  init rt watch_go w args = Started g w' ->
  output w' = output w ++ [(Stderr, NotExists (copyDir g))].
Proof.
  unfold init. destruct args as [|arg1 rest]; [discriminate|].
  destruct (ResolvePaths _ _ _ _) as [ps e].
  destruct (length ps <=? 0); [discriminate|].
  set (dir := match rest with
              | [] => ""
              | arg2 :: _ => if IsDir rt (fs w) arg2 then arg2 else ""
              end).
  assert (copyDir_missing rt watch_go (fs w) dir = true) as ->.
  { unfold copyDir_missing. destruct dir; [reflexivity|reflexivity]. }
  destruct (ParseDuration _ _); [|discriminate].
  intros H. now injection H as <- <-.
Qed.

End InitFacts.

(** ** The three revisions at work *)

(** C1: watch.go.  The mirror holds an older a.txt of eleven bytes; the
    source holds "hello".  [sync] schedules the copy, ten seconds pass,
    [copyFile] opens the destination without O_TRUNC and never flushes
    its writer: the destination keeps bytes of the old file ("hello WORLD"
    where the file takes the copy directly, "HELLO WORLD" where the
    writer buffers it), a destination that did not exist stays empty in
    the buffered case, and "file copy success" is reported each time.
    [Copy] of part_001 leaves exactly "hello". *)
Theorem copyFile_keeps_old_bytes (readerFrom : bool) :
  let rt := Scenario.linux readerFrom in
  let g := Scenario.globals "/backup" in
  let after (v : Variant) (w : World) : option (option node * list (stream * message)) :=
    match syncFile rt v g w "/data/a.txt" with
    | Returns w1 None =>
        let w2 := elapse rt v 10 w1 in
        Some (FS.Stat "linux" (fs w2) "/backup/data/a.txt", output w2)
    | _ => None
    end in
  let lines :=
    [(Stdout, CopyIn "/data/a.txt" "/backup/data/a.txt" 10);
     (Stdout, CopySuccess "/backup/data/a.txt")] in
  after watch_go Scenario.mirrored
  = Some (Some (Regular (Scenario.bytes
                           (if readerFrom then "hello WORLD" else "HELLO WORLD"))),
          lines) /\
  after watch_go Scenario.fresh
  = Some (Some (Regular (Scenario.bytes (if readerFrom then "hello" else ""))),
          lines) /\
  after part_001 Scenario.mirrored
  = Some (Some (Regular (Scenario.bytes "hello")), lines).
Proof. destruct readerFrom; repeat split; vm_compute; reflexivity. Qed.

(** C2: a copy of /data/a.txt is scheduled, five seconds later the file
    is deleted, five seconds later the timer fires.  [IsFile] is
    [!IsDir], true of a path that names nothing, so the copy is tried:
    part_000 and part_001 report the error of [os.Open] on the standard
    error and create nothing; watch.go goes on past the failed open,
    creates the empty destination and reports the error of the copy. *)
Theorem delayed_after_delete (v : Variant) (readerFrom : bool) :
  let rt := Scenario.linux readerFrom in
  let g := Scenario.globals "/backup" in
  exists w1,
    syncFile rt v g Scenario.fresh "/data/a.txt" = Returns w1 None /\
    let w2 := elapse rt v 5 w1 in
    let w3 := with_fs w2 (unlink (fs w2) ["data"; "a.txt"]) in
    let w4 := elapse rt v 5 w3 in
    timers w2 = timers w1 /\
    FS.Stat "linux" (fs w3) "/data/a.txt" = None /\
    timers w4 = [] /\
    output w4 =
      match v with
      | watch_go =>
          [(Stdout, CopyIn "/data/a.txt" "/backup/data/a.txt" 10);
           (Stdout, OpenFileError ErrNotExist);
           (Stderr, Failure ErrInvalid)]
      | _ =>
          [(line v Stdout, CopyIn "/data/a.txt" "/backup/data/a.txt" 10);
           (Stderr, Failure ErrNotExist)]
      end /\
    FS.Stat "linux" (fs w4) "/backup/data/a.txt" =
      match v with
      | watch_go => Some (Regular [])
      | _ => None
      end.
Proof.
  destruct v, readerFrom; eexists; (split; [vm_compute; reflexivity|]);
    vm_compute; repeat split.
Qed.

(** C8: started as [watch /data /backup] with /backup a directory,
    watch.go sets the mirror directory and prints "copy target dir is
    not exists /backup" all the same (its test reads [len(copyDir) > 0]
    where the other two read [len(copyDir) == 0]); part_000 and
    part_001 print nothing. *)
Theorem init_watch_go_diagnostic (readerFrom : bool) :
  let rt := Scenario.linux readerFrom in
  let started (v : Variant) :=
    match init rt v Scenario.fresh ["/data"; "/backup"] with
    | Started g w => Some (copyDir g, IsDir rt (fs w) (copyDir g), output w)
    | Exit _ _ => None
    end in
  started watch_go = Some ("/backup", true, [(Stderr, NotExists "/backup")]) /\
  started part_000 = Some ("/backup", true, []) /\
  started part_001 = Some ("/backup", true, []).
Proof. destruct readerFrom; repeat split; vm_compute; reflexivity. Qed.

(** ** Instances *)

Lemma newPath_mapping_witness :
  newPath "windows" "E:\backup" "D:\data\a.txt" = Some "E:\backup\data\a.txt" /\
  newPath "linux" "/backup" "/data/a.txt" = Some "/backup/data/a.txt" /\
  dest {| due := 10; source := "/data/a.txt"; dest := "/backup/data/a.txt" |}
  = dest {| due := 10; source := "/data/a.txt"; dest := "/backup/data/a.txt" |}.
Proof.
  split; [|split].
  - apply (proj1 (newPath_mapping "windows" "E:\backup" "D:\data\a.txt"));
      [reflexivity | simpl; lia].
  - apply (proj1 (proj2 (newPath_mapping "linux" "/backup" "/data/a.txt"))).
    discriminate.
  - apply (proj2 (proj2 (newPath_mapping "linux" "/backup" "/data/a.txt"))
             (Scenario.linux true) part_001 (Scenario.globals "/backup")
             Scenario.fresh
             (AfterFunc
                (say part_001 Stdout
                   (CopyIn "/data/a.txt" "/backup/data/a.txt" 10)
                   (with_fs Scenario.fresh
                      (fst (mkdirAll (Scenario.linux true)
                              (fs Scenario.fresh) "/backup/data"))))
                10 "/data/a.txt" "/backup/data/a.txt")
             None
             Scenario.mirrored
             (AfterFunc
                (say part_001 Stdout
                   (CopyIn "/data/a.txt" "/backup/data/a.txt" 10)
                   Scenario.mirrored)
                10 "/data/a.txt" "/backup/data/a.txt")
             None);
      try reflexivity; simpl; tauto.
Defined.

Lemma newPath_slice_bounds_witness :
  (GoStrings.slice "D:\data\a.txt" 0 2 <> None <-> 2 <= 13) /\
  (syncFile Scenario.windows part_001 (Scenario.globals "E:\backup")
     Scenario.volumes "D:\data\a.txt" <> Panics <-> 2 <= 13).
Proof.
  apply (newPath_slice_bounds Scenario.windows part_001
           (Scenario.globals "E:\backup") Scenario.volumes "D:\data\a.txt");
    [reflexivity | discriminate | reflexivity].
Defined.

(** A path of one byte on windows. *)
Example syncFile_short_path :
  syncFile Scenario.windows watch_go (Scenario.globals "E:\backup")
    Scenario.volumes "D" = Panics.
Proof. reflexivity. Qed.

Lemma syncFile_without_mirror_witness :
  syncFile (Scenario.linux true) part_001 (Scenario.globals "")
    Scenario.fresh "/data/a.txt" = Returns Scenario.fresh None /\
  syncFile (Scenario.linux true) watch_go (Scenario.globals "/nowhere")
    Scenario.fresh "/data/a.txt" = Returns Scenario.fresh None.
Proof.
  split.
  - apply syncFile_without_mirror. left. reflexivity.
  - apply syncFile_without_mirror. right. reflexivity.
Defined.

Lemma syncFile_dir_idempotent_witness :
  exists w',
    syncFile_times (Scenario.linux true) part_001 (Scenario.globals "/backup")
      "/data/sub" 3 Scenario.mirrored = Returns w' None /\
    fs w' = fs Scenario.mirrored /\ timers w' = timers Scenario.mirrored.
Proof.
  apply (syncFile_dir_idempotent (Scenario.linux true) part_001
           (Scenario.globals "/backup") Scenario.mirrored
           "/data/sub" "/backup/data/sub" 3); reflexivity.
Defined.

Lemma ResolvePaths_recursion_superset_witness :
  let no_recurse :=
    {| Help := false; Halt := false; Quiet := false; Interval := "1s";
       NoRecurse := true; Version := false; OnChange := "" |} in
  let rt := Scenario.linux true in
  let root := fs Scenario.fresh in
  (snd (ResolvePaths rt no_recurse root ["/data"])
   = snd (ResolvePaths rt opts root ["/data"]) /\
   incl (fst (ResolvePaths rt no_recurse root ["/data"]))
        (fst (ResolvePaths rt opts root ["/data"]))) /\
  ResolvePaths rt no_recurse root ["/data"] = (["/data"], None).
Proof.
  intros no_recurse rt root.
  pose proof (ResolvePaths_recursion_superset rt opts no_recurse root ["/data"]
                eq_refl eq_refl) as (He & Hi & Hd).
  split; [split; assumption|].
  apply (Hd "/data" _ eq_refl).
Defined.

(** The walk with recursion in the same tree. *)
Example ResolvePaths_recurse :
  ResolvePaths (Scenario.linux true) opts (fs Scenario.fresh) ["/data"]
  = (["/data"; "/data/sub"], None).
Proof. reflexivity. Qed.

(** C7, as stated: the empty string names nothing, and [ResolvePaths]
    passes over it without an error. *)
Lemma ResolvePaths_empty_argument :
  FS.Stat "linux" (fs Scenario.fresh) "" = None /\
  ResolvePaths (Scenario.linux true) opts (fs Scenario.fresh) [""] = ([], None).
Proof. split; reflexivity. Qed.

Lemma ResolvePaths_missing_witness :
  ResolvePaths (Scenario.linux true) opts (fs Scenario.fresh)
    ["/data"; "/nope"; "/data/sub"] = ([], Some ErrNotExist).
Proof.
  apply (ResolvePaths_missing (Scenario.linux true) opts (fs Scenario.fresh)
           ["/data"; "/nope"; "/data/sub"] "/nope").
  - simpl. tauto.
  - discriminate.
  - reflexivity.
Defined.

Lemma ResolvePaths_nil_error_witness :
  Filepath.Walk (list string) "linux" (walker None)
    (fs Scenario.locked) "/data" []
  = (["/data"], Some ErrPermission) /\
  snd (ResolvePaths (Scenario.linux true) opts (fs Scenario.locked) ["/data"])
  = None.
Proof.
  split; [reflexivity|].
  apply ResolvePaths_nil_error.
  constructor; [discriminate|constructor].
Defined.

(** * Further properties *)

(** ** Making directories *)

Module MkdirFacts.
Import FS.

Lemma set_entry_same (c : string) (ch : node) (es : list (string * node)) :
  find_entry c es = Some ch -> set_entry c ch es = es.
Proof.
  induction es as [|[k m] es IH]; simpl; [discriminate|].
  destruct (String.eqb_spec c k) as [->|ne].
  - now intros [= ->].
  - intros H. now rewrite IH.
Qed.

(** Where the directory is there already, nothing changes. *)
Lemma mkdirs_existing (cs : list string) :
  forall n r es, lookup n cs = Some (Directory r es) -> mkdirs n cs = Ok n.
Proof.
  induction cs as [|c cs IH]; intros n r es H.
  - simpl in H. injection H as ->. reflexivity.
  - destruct n as [d|r0 es0]; [discriminate|]. simpl in *.
    destruct (find_entry c es0) as [ch|] eqn:F; [|discriminate].
    rewrite (IH _ _ _ H). simpl. now rewrite set_entry_same.
Qed.

(** Where it succeeds, the directory is there. *)
Lemma mkdirs_lookup (cs : list string) :
  forall n n', mkdirs n cs = Ok n' ->
    exists r es, lookup n' cs = Some (Directory r es).
Proof.
  induction cs as [|c cs IH]; intros n n' H;
    (destruct n as [d|r0 es0]; [discriminate|]); simpl in H.
  - injection H as <-. now exists r0, es0.
  - destruct (mkdirs _ cs) as [ch'|e] eqn:M; [|discriminate].
    injection H as <-. simpl. rewrite FSFacts.find_set_same. eauto.
Qed.


(** The regular files stay what they were, and none is made. *)
Lemma mkdirs_files (cs : list string) :
  forall n n' cs2 d, mkdirs n cs = Ok n' ->
    (lookup n' cs2 = Some (Regular d) <-> lookup n cs2 = Some (Regular d)).
Proof.
  induction cs as [|c cs IH]; intros n n' cs2 d H;
    (destruct n as [d0|r0 es0]; [discriminate|]); simpl in H.
  - now injection H as <-.
  - destruct (mkdirs _ cs) as [ch'|e] eqn:M; [|discriminate].
    injection H as <-.
    destruct cs2 as [|c2 cs2]; [easy|]. simpl.
    destruct (String.eqb_spec c2 c) as [->|ne].
    + rewrite FSFacts.find_set_same.
      destruct (find_entry c es0) as [ch|] eqn:F; [now apply IH|].
      rewrite (IH _ _ cs2 d M). now destruct cs2.
    + now rewrite FSFacts.find_set_other.
Qed.

(** What is below the directory afterwards was there before. *)
Lemma mkdirs_below (cs : list string) :
  forall n n' cs2 x, mkdirs n cs = Ok n' -> cs2 <> [] ->
    lookup n' (cs ++ cs2) = Some x -> lookup n (cs ++ cs2) = Some x.
Proof.
  induction cs as [|c cs IH]; intros n n' cs2 x H ne;
    (destruct n as [d0|r0 es0]; [discriminate|]); simpl in H.
  - now injection H as <-.
  - destruct (mkdirs _ cs) as [ch'|e] eqn:M; [|discriminate].
    injection H as <-. simpl. rewrite FSFacts.find_set_same. intros L.
    apply (IH _ _ _ _ M ne) in L.
    destruct (find_entry c es0) as [ch|]; [exact L|].
    destruct (cs ++ cs2) eqn:E; [|discriminate L].
    now apply app_eq_nil in E as [_ ->].
Qed.

End MkdirFacts.

Section MkdirAllFacts.

Variable rt : Runtime.

Lemma mkdirAll_IsDir (root root' : node) (path : string) :
  mkdirAll rt root path = (root', None) -> IsDir rt root' path = true.
Proof.
  unfold mkdirAll, FS.MkdirAll, IsDir, FS.Stat.
  destruct (String.eqb path ""); [discriminate|].
  destruct (FS.mkdirs _ _) as [n'|e] eqn:M; [|discriminate].
  intros [= <-]. destruct (MkdirFacts.mkdirs_lookup _ _ _ M) as (r & es & ->).
  reflexivity.
Qed.


Lemma mkdirAll_files (root root' : node) (path : string) (err : option error)
    (p : string) (d : list byte) :
  mkdirAll rt root path = (root', err) ->
  (FS.Stat (GOOS rt) root' p = Some (Regular d) <->
   FS.Stat (GOOS rt) root p = Some (Regular d)).
Proof.
  unfold mkdirAll, FS.MkdirAll.
  destruct (String.eqb path ""); [now intros [= <- _]|].
  destruct (FS.mkdirs _ _) as [n'|e'] eqn:M; [|now intros [= <- _]].
  intros [= <- _]. unfold FS.Stat. destruct (String.eqb p ""); [easy|].
  now apply MkdirFacts.mkdirs_files with (cs := FS.components (GOOS rt) path).
Qed.

End MkdirAllFacts.

(** ** More on syncFile *)


Lemma append_nonempty (a b : string) : a <> "" -> (a ++ b)%string <> "".
Proof. destruct a; [easy|discriminate]. Qed.

Lemma newPath_nonempty (os mirrorDir filePath np : string) :
  mirrorDir <> "" -> newPath os mirrorDir filePath = Some np -> np <> "".
Proof.
  intros Hd. destruct (String.eqb_spec os "windows") as [->|ne].
  - rewrite newPath_windows. destruct (_ <=? _); [|discriminate].
    intros [= <-]. now apply append_nonempty.
  - rewrite (newPath_other _ _ _ ne). intros [= <-]. now apply append_nonempty.
Qed.



Lemma length_nonempty (s : string) : (String.length s =? 0) = false -> s <> "".
Proof. now destruct s. Qed.

Section SyncFacts.

Variable rt : Runtime.
Variable v : Variant.
Variable g : Globals.

Lemma syncFile_mirroring (w : World) (filePath : string) :
  mirroring rt g w = true ->
  syncFile rt v g w filePath =
    match newPath (GOOS rt) (copyDir g) filePath with
    | None => Panics
    | Some newPath =>
        if IsDir rt (fs w) filePath then
          if IsDir rt (fs w) newPath
          then Returns (say v Stdout (DirExists newPath) w) None
          else let '(fs', err) := mkdirAll rt (fs w) newPath in
               Returns (with_fs w fs') err
        else
          match mkdirAll rt (fs w) (Filepath.Dir (GOOS rt) newPath) with
          | (fs', Some e) => Returns (with_fs w fs') (Some e)
          | (fs', None) =>
              Returns
                (AfterFunc
                   (say v Stdout (CopyIn filePath newPath (sleep g))
                      (with_fs w fs'))
                   (sleep g) filePath newPath) None
          end
    end.
Proof.
  unfold mirroring, syncFile, IsFile. intros H.
  apply andb_prop in H as [H1 H2]. rewrite H2.
  destruct (String.length (copyDir g) =? 0); [discriminate|]. simpl.
  destruct (newPath _ _ _); [|reflexivity].
  now destruct (IsDir rt (fs w) filePath).
Qed.

Lemma mirroring_copyDir (w : World) : mirroring rt g w = true -> copyDir g <> "".
Proof.
  unfold mirroring. intros H. apply andb_prop in H as [H _].
  apply length_nonempty. now destruct (_ =? _).
Qed.

(** X8: the only abort of [syncFile]: on windows, with mirroring on, for a
    path of less than two bytes. *)
Theorem syncFile_panics_iff (w : World) (filePath : string) :
  syncFile rt v g w filePath = Panics <->
  GOOS rt = "windows" /\ mirroring rt g w = true /\ String.length filePath < 2.
Proof.
  destruct (mirroring rt g w) eqn:M.
  - rewrite (syncFile_mirroring _ _ M).
    destruct (String.eqb_spec (GOOS rt) "windows") as [E|ne].
    + rewrite E, newPath_windows.
      destruct (Nat.leb_spec 2 (String.length filePath)) as [H|H].
      * split; [|lia].
        destruct (IsDir _ _ filePath); [destruct (IsDir _ _ _)|];
          try discriminate.
        -- now destruct (mkdirAll _ _ _).
        -- now destruct (mkdirAll _ _ _) as [? [|]].
      * easy.
    + rewrite (newPath_other _ _ _ ne). split; [|easy].
      destruct (IsDir _ _ filePath); [destruct (IsDir _ _ _)|];
        try discriminate.
      * now destruct (mkdirAll _ _ _).
      * now destruct (mkdirAll _ _ _) as [? [|]].
  - unfold syncFile. unfold mirroring in M.
    destruct (String.length (copyDir g) =? 0); simpl in *;
      [split; [discriminate|easy]|].
    rewrite M. simpl. split; [discriminate|easy].
Qed.


(** X10: a directory event with mirroring on: when [syncFile] returns nil the
    mirror path is a directory, at once, and no copy is scheduled. *)
Theorem syncFile_dir_created (w w' : World) (filePath : string) :
  mirroring rt g w = true ->
  IsDir rt (fs w) filePath = true ->
  syncFile rt v g w filePath = Returns w' None ->
  exists np,
    newPath (GOOS rt) (copyDir g) filePath = Some np /\
    IsDir rt (fs w') np = true /\
    timers w' = timers w.
Proof.
  intros M D. rewrite (syncFile_mirroring _ _ M), D.
  destruct (newPath _ _ _) as [np|]; [|discriminate].
  intros H. exists np. split; [reflexivity|].
  destruct (IsDir rt (fs w) np) eqn:Dn.
  - injection H as <-. now split.
  - destruct (mkdirAll _ _ _) as [fs' err] eqn:Mk. injection H as <- ->.
    split; [|reflexivity]. now apply mkdirAll_IsDir in Mk.
Qed.

(** X11: an event on anything but a directory, a path that names nothing
    included, with mirroring on: when [syncFile] returns nil the
    directory of the mirror path is there and one copy is scheduled, due
    [sleep] seconds on, from the path to its mirror path. *)
Theorem syncFile_schedules (w w' : World) (filePath : string) :
  mirroring rt g w = true ->
  IsDir rt (fs w) filePath = false ->
  syncFile rt v g w filePath = Returns w' None ->
  exists np,
    newPath (GOOS rt) (copyDir g) filePath = Some np /\
    IsDir rt (fs w') (Filepath.Dir (GOOS rt) np) = true /\
    timers w' =
      timers w ++ [{| due := now w + sleep g; source := filePath; dest := np |}] /\
    now w' = now w.
Proof.
  intros M D. rewrite (syncFile_mirroring _ _ M), D.
  destruct (newPath _ _ _) as [np|]; [|discriminate].
  destruct (mkdirAll _ _ _) as [fs' [e|]] eqn:Mk; [discriminate|].
  intros [= <-]. exists np. repeat split.
  now apply mkdirAll_IsDir in Mk.
Qed.

(** X12: [syncFile] makes directories only: the regular files of the tree,
    their bytes included, are the same before and after. *)
Theorem syncFile_keeps_files (w w' : World) (filePath : string)
    (err : option error) (p : string) (d : list byte) :
  syncFile rt v g w filePath = Returns w' err ->
  (FS.Stat (GOOS rt) (fs w') p = Some (Regular d) <->
   FS.Stat (GOOS rt) (fs w) p = Some (Regular d)).
Proof.
  unfold syncFile.
  destruct (_ || _); [now intros [= <- _]|].
  destruct (newPath _ _ _) as [np|]; [|discriminate].
  destruct (IsDir _ _ filePath); [destruct (IsDir _ _ _)|].
  - now intros [= <- _].
  - destruct (mkdirAll _ _ _) as [fs' e] eqn:Mk. intros [= <- _].
    apply (mkdirAll_files _ _ _ _ _ _ _ Mk).
  - destruct (IsFile _ _ _); [|now intros [= <- _]].
    destruct (mkdirAll _ _ _) as [fs' [e|]] eqn:Mk; intros [= <- _];
      apply (mkdirAll_files _ _ _ _ _ _ _ Mk).
Qed.

End SyncFacts.

(** ** More on ResolvePaths *)

Section ResolveMore.

Variable rt : Runtime.

(** The walk does not look at what was resolved before it. *)
Lemma walk_acc (recurse : option error) (info : node) :
  forall path resolved,
    Filepath.walk (list string) (GOOS rt) (walker recurse) path info resolved
    = (resolved ++
         fst (Filepath.walk (list string) (GOOS rt) (walker recurse) path info []),
       snd (Filepath.walk (list string) (GOOS rt) (walker recurse) path info [])).
Proof.
  induction info as [data|readable entries IH] using node_ind;
    intros path resolved.
  - simpl. destruct recurse; now rewrite app_nil_r.
  - destruct readable; [|simpl; now rewrite app_nil_r].
    cbn [Filepath.walk walker]. destruct recurse as [e|]; [reflexivity|].
    cbn [app].
    match goal with
    | |- ?loop entries _ = _ =>
        enough (forall st, loop entries st
                           = (st ++ fst (loop entries []), snd (loop entries [])))
          as H
    end.
    { rewrite (H (resolved ++ [path])), (H [path]). cbn [fst snd].
      now rewrite <- app_assoc. }
    induction IH as [|[name child] rest Hchild _ IHrest]; intros st.
    + simpl. now rewrite app_nil_r.
    + simpl in Hchild.
      rewrite (Hchild (Filepath.Join (GOOS rt) path name) st).
      destruct (Filepath.walk _ _ _ _ child []) as [a [e|]]; cbn [fst snd].
      * destruct (_ || _); [reflexivity|].
        rewrite (IHrest (st ++ a)), (IHrest a). cbn [fst snd].
        now rewrite <- app_assoc.
      * rewrite (IHrest (st ++ a)), (IHrest a). cbn [fst snd].
        now rewrite <- app_assoc.
Qed.

Lemma Walk_from_any (recurse : option error) (root : node) (path : string)
    (resolved : list string) :
  fst (Filepath.Walk (list string) (GOOS rt) (walker recurse) root path resolved)
  = resolved ++
    fst (Filepath.Walk (list string) (GOOS rt) (walker recurse) root path []).
Proof.
  unfold Filepath.Walk. destruct (FS.Stat _ _ _) as [info|].
  - rewrite walk_acc.
    destruct (Filepath.walk _ _ _ _ _ []) as [a [[]|]]; reflexivity.
  - simpl. now rewrite app_nil_r.
Qed.

(** The loop of [ResolvePaths] from any start: the paths it adds are
    those it finds from an empty start, and an error leaves none. *)
Lemma resolve_acc (recurse : option error) (root : node) (args : list string) :
  forall resolved,
    resolve rt recurse root args resolved
    = match snd (resolve rt recurse root args []) with
      | None => (resolved ++ fst (resolve rt recurse root args []), None)
      | Some e => ([], Some e)
      end.
Proof.
  induction args as [|path args IH]; intros resolved.
  - simpl. now rewrite app_nil_r.
  - cbn [resolve]. destruct (String.eqb path ""); [apply IH|].
    destruct (FS.Stat _ _ _) as [stat|]; [|reflexivity].
    destruct (negb _).
    + rewrite (IH (resolved ++ [path])), (IH ([] ++ [path])).
      destruct (snd _); [reflexivity|]. cbn [fst]. now rewrite <- app_assoc.
    + pose proof (Walk_from_any recurse root path resolved) as W.
      destruct (Filepath.Walk _ _ _ _ _ resolved) as [r1 e1].
      destruct (Filepath.Walk _ _ _ _ _ []) as [r0 e0].
      cbn [fst] in W. subst r1.
      rewrite (IH (resolved ++ r0)), (IH r0).
      destruct (snd _); [reflexivity|]. cbn [fst]. now rewrite <- app_assoc.
Qed.

Lemma resolve_app (recurse : option error) (root : node) (a b : list string) :
  forall resolved,
    resolve rt recurse root (a ++ b) resolved
    = match resolve rt recurse root a resolved with
      | (r1, None) => resolve rt recurse root b r1
      | (r1, Some e) => (r1, Some e)
      end.
Proof.
  induction a as [|path a IH]; intros resolved; [reflexivity|].
  cbn [app resolve]. destruct (String.eqb path ""); [apply IH|].
  destruct (FS.Stat _ _ _) as [stat|]; [|reflexivity].
  destruct (negb _); [apply IH|].
  destruct (Filepath.Walk _ _ _ _ _ _). apply IH.
Qed.

(** X14: two argument lists that each resolve without error resolve
    together to the one result followed by the other. *)
Theorem ResolvePaths_app (o : options) (root : node) (a b : list string) :
  snd (ResolvePaths rt o root a) = None ->
  snd (ResolvePaths rt o root b) = None ->
  ResolvePaths rt o root (a ++ b)
  = (fst (ResolvePaths rt o root a) ++ fst (ResolvePaths rt o root b), None).
Proof.
  unfold ResolvePaths. intros Ha Hb. rewrite resolve_app.
  destruct (resolve rt _ root a []) as [ra [e|]]; [discriminate|].
  rewrite resolve_acc, Hb. reflexivity.
Qed.

(** X15: empty arguments count for nothing: the result is that of the
    arguments without them. *)
Theorem ResolvePaths_skips_empty (o : options) (root : node)
    (args : list string) :
  ResolvePaths rt o root (filter (fun path => negb (String.eqb path "")) args)
  = ResolvePaths rt o root args.
Proof.
  unfold ResolvePaths.
  enough (forall resolved,
             resolve rt (if NoRecurse o then Some SkipDir else None) root
               (filter (fun path => negb (String.eqb path "")) args) resolved
             = resolve rt (if NoRecurse o then Some SkipDir else None) root
                 args resolved) as E by apply E.
  induction args as [|path args IH]; intros resolved; [reflexivity|].
  cbn [filter resolve].
  destruct (String.eqb path "") eqn:E; cbn [negb]; [apply IH|].
  cbn [resolve]. rewrite E.
  destruct (FS.Stat _ _ _) as [stat|]; [|reflexivity].
  destruct (negb _); [apply IH|].
  destruct (Filepath.Walk _ _ _ _ _ _). apply IH.
Qed.

(** X16: arguments that are regular files come back as they are, in
    order, with or without recursion. *)
Theorem ResolvePaths_files (o : options) (root : node) (args : list string) :
  Forall (fun path => exists data,
              FS.Stat (GOOS rt) root path = Some (Regular data)) args ->
  ResolvePaths rt o root args = (args, None).
Proof.
  unfold ResolvePaths. intros H.
  enough (forall resolved,
             resolve rt (if NoRecurse o then Some SkipDir else None)
               root args resolved = (resolved ++ args, None)) as E by apply E.
  induction H as [|path args [data Hp] _ IH]; intros resolved.
  - simpl. now rewrite app_nil_r.
  - cbn [resolve].
    assert (String.eqb path "" = false) as ->.
    { destruct (String.eqb_spec path "") as [->|]; [discriminate Hp|easy]. }
    rewrite Hp. simpl negb. cbv iota. rewrite IH, <- app_assoc. reflexivity.
Qed.

(** X17: under no-recurse an argument gives one path at most. *)
Theorem ResolvePaths_NoRecurse_length (o : options) (root : node)
    (args : list string) :
  NoRecurse o = true ->
  length (fst (ResolvePaths rt o root args)) <= length args.
Proof.
  unfold ResolvePaths. intros ->.
  enough (forall resolved,
             length (fst (resolve rt (Some SkipDir) root args resolved))
             <= length resolved + length args) as E by apply E.
  induction args as [|path args IH]; intros resolved; [simpl; lia|].
  cbn [resolve length]. destruct (String.eqb path "").
  { specialize (IH resolved). lia. }
  destruct (FS.Stat _ _ _) as [stat|] eqn:S; [|simpl; lia].
  destruct (negb _).
  - specialize (IH (resolved ++ [path])). rewrite length_app in IH.
    simpl in IH. lia.
  - pose proof (fst_Walk rt (Some SkipDir) root stat path resolved S) as W.
    rewrite walk_NoRecurse in W.
    destruct (Filepath.Walk _ _ _ _ _ _) as [r1 e1]. cbn [fst] in W.
    assert (r1 = resolved ++ [path] \/ r1 = resolved) as [->| ->]
      by (destruct stat as [?|[|] ?]; simpl in W; auto).
    + specialize (IH (resolved ++ [path])). rewrite length_app in IH.
      simpl in IH. lia.
    + specialize (IH resolved). lia.
Qed.



End ResolveMore.

(** ** More on the copy *)

Section CopyMore.

Variable rt : Runtime.

Lemma Copy_other_files (w w' : World) (src dst : string)
    (err : option error) (p : string) (d : list byte) :
  Copy rt w src dst = (w', err) ->
  FS.components (GOOS rt) p <> FS.components (GOOS rt) dst ->
  (FS.Stat (GOOS rt) (fs w') p = Some (Regular d) <->
   FS.Stat (GOOS rt) (fs w) p = Some (Regular d)).
Proof.
  unfold Copy. intros H ne.
  destruct (FS.Stat _ _ src); [|now injection H as <- _].
  destruct (FS.Create _ _ _) as [fs1|e] eqn:C; [|now injection H as <- _].
  pose proof (Stat_after_alter rt _ _ _ p dst d
                (FSFacts.open_write_on_files true) (Create_alter rt _ _ _ C) ne)
    as H1.
  destruct (FS.Stat _ fs1 src) as [[data|r es]|];
    try (injection H as <- _; exact H1).
  destruct (io_Copy _ _) as [written e]. injection H as <- _. simpl.
  unfold FS.Write.
  destruct (FS.alter (FS.write_at written) fs1 _) as [fs2|e2] eqn:W;
    [|exact H1].
  rewrite <- H1.
  apply (Stat_after_alter rt _ _ _ p dst d
           (FSFacts.write_at_on_files written) W ne).
Qed.

Lemma Copy_ok (w : World) (src dst : string) (data : list byte)
    (fs1 : node) :
  FS.Stat (GOOS rt) (fs w) src = Some (Regular data) ->
  FS.Create (GOOS rt) (fs w) dst = Ok fs1 ->
  FS.components (GOOS rt) src <> FS.components (GOOS rt) dst ->
  (forall q, quota w = Some q -> length data <= q) ->
  exists w',
    Copy rt w src dst = (w', None) /\
    FS.Stat (GOOS rt) (fs w') dst = Some (Regular data) /\
    FS.Stat (GOOS rt) (fs w') src = Some (Regular data).
Proof.
  intros S C ne Hq.
  destruct (Copy_regular rt w src dst data fs1 S C ne Hq) as [w' E].
  exists w'. split; [exact E|].
  destruct (Copy_nil rt _ _ _ _ E ne) as (data' & S' & D').
  assert (data' = data) as -> by congruence.
  split; [exact D'|]. now apply (Copy_other_files _ _ _ _ _ src data E ne).
Qed.

(** X3: a write that does not fit: [Copy] returns the error, and the
    destination is left with the bytes that did fit. *)
Theorem Copy_short_write (w : World) (src dst : string) (data : list byte)
    (fs1 : node) (q : nat) :
  FS.Stat (GOOS rt) (fs w) src = Some (Regular data) ->
  FS.Create (GOOS rt) (fs w) dst = Ok fs1 ->
  FS.components (GOOS rt) src <> FS.components (GOOS rt) dst ->
  quota w = Some q -> q < length data ->
  exists w',
    Copy rt w src dst = (w', Some ErrNoSpace) /\
    FS.Stat (GOOS rt) (fs w') dst = Some (Regular (firstn q data)).
Proof.
  intros S C ne Hq Hlt. unfold Copy. rewrite S, C.
  apply (Stat_after_alter rt _ _ _ _ _ _ (FSFacts.open_write_on_files true)
           (Create_alter rt _ _ _ C) ne) in S.
  rewrite S, Hq. unfold io_Copy.
  destruct (Nat.leb_spec (length data) q); [lia|].
  eexists. split; [reflexivity|]. simpl.
  destruct (FSFacts.OpenFile_Stat _ _ _ _ _ C) as (d & Hd & Hnil).
  rewrite (Hnil eq_refl) in Hd.
  rewrite (FSFacts.Write_Stat _ _ _ _ (firstn q data) Hd).
  now rewrite skipn_nil, app_nil_r.
Qed.

(** X6: [copyFile] of watch.go on a source that cannot be opened, the
    destination openable: the copy fails with [ErrInvalid], but only
    after the destination was opened, so a regular file is there
    afterwards. *)
Theorem copyFile_missing_source (w : World) (src dst : string) (fs1 : node) :
  FS.Stat (GOOS rt) (fs w) src = None ->
  FS.OpenFile (GOOS rt) false (fs w) dst = Ok fs1 ->
  exists w' d,
    copyFile rt w dst src = (w', (0, Some ErrInvalid)) /\
    FS.Stat (GOOS rt) (fs w') dst = Some (Regular d) /\
    (FS.Stat (GOOS rt) (fs w) dst = None -> d = []).
Proof.
  intros S O. unfold copyFile. rewrite S. cbn [say fs]. rewrite O.
  destruct (FSFacts.OpenFile_Stat _ _ _ _ _ O) as (d & Hd & _).
  eexists. exists d. split; [reflexivity|]. split; [exact Hd|].
  intros Hn. unfold FS.OpenFile in O. unfold FS.Stat in Hn, Hd.
  destruct (String.eqb dst ""); [discriminate|].
  destruct (FSFacts.alter_lookup _ _ _ _ O) as (x & Hx & Hl).
  rewrite Hn in Hx. simpl in Hx. injection Hx as <-.
  simpl in Hd. congruence.
Qed.

(** X1: [Copy] of part_000 and part_001 returns nil only when the source
    was a regular file, and then the destination holds its bytes, all
    of them and no others, and the source holds them still (source and
    destination being two places). *)
Theorem Copy_returns_nil (w w' : World) (src dst : string) :
  Copy rt w src dst = (w', None) ->
  FS.components (GOOS rt) src <> FS.components (GOOS rt) dst ->
  exists data,
    FS.Stat (GOOS rt) (fs w) src = Some (Regular data) /\
    FS.Stat (GOOS rt) (fs w') dst = Some (Regular data) /\
    FS.Stat (GOOS rt) (fs w') src = Some (Regular data).
Proof.
  intros E ne. destruct (Copy_nil rt _ _ _ _ E ne) as (data & S & D).
  exists data. repeat split; try assumption.
  now apply (Copy_other_files _ _ _ _ _ src data E ne).
Qed.

(** X2: a regular source whose bytes fit and a destination that can be
    created: [Copy] returns nil, the destination holds the bytes of the
    source, and the source holds them still. *)
Theorem Copy_succeeds (w : World) (src dst : string) (data : list byte)
    (fs1 : node) :
  FS.Stat (GOOS rt) (fs w) src = Some (Regular data) ->
  FS.Create (GOOS rt) (fs w) dst = Ok fs1 ->
  FS.components (GOOS rt) src <> FS.components (GOOS rt) dst ->
  (forall q, quota w = Some q -> length data <= q) ->
  exists w',
    Copy rt w src dst = (w', None) /\
    FS.Stat (GOOS rt) (fs w') dst = Some (Regular data) /\
    FS.Stat (GOOS rt) (fs w') src = Some (Regular data).
Proof.
  intros S C ne Hq.
  destruct (Copy_regular rt w src dst data fs1 S C ne Hq) as [w' E].
  exists w'. split; [exact E|].
  destruct (Copy_nil rt _ _ _ _ E ne) as (data' & S' & D').
  assert (data' = data) as -> by congruence.
  split; [exact D'|]. now apply (Copy_other_files _ _ _ _ _ src data E ne).
Qed.

(** X4: [Copy] touches the destination and nothing else: a regular file
    at another place holds the same bytes before and after, whether the
    copy succeeds or not, and [Copy] itself schedules and prints
    nothing. *)
Theorem Copy_keeps_files (w w' : World) (src dst : string)
    (err : option error) (p : string) (d : list byte) :
  Copy rt w src dst = (w', err) ->
  FS.components (GOOS rt) p <> FS.components (GOOS rt) dst ->
  (FS.Stat (GOOS rt) (fs w') p = Some (Regular d) <->
   FS.Stat (GOOS rt) (fs w) p = Some (Regular d)) /\
  timers w' = timers w /\ output w' = output w.
Proof.
  intros E ne. split; [exact (Copy_other_files w w' src dst err p d E ne)|].
  pose proof (Copy_output rt w src dst) as O.
  unfold Copy in E, O.
  destruct (FS.Stat _ _ src); [|now injection E as <- _].
  destruct (FS.Create _ _ _); [|now injection E as <- _].
  destruct (FS.Stat _ _ src) as [[data|r es]|];
    try (now injection E as <- _).
  destruct (io_Copy _ _). now injection E as <- _.
Qed.

(** X5: [copyFile] of watch.go on an existing destination, the copy
    handed to the file and nothing in its way: nil is returned with the
    length of the source, and the destination holds the source followed
    by what the old file had beyond that length (it is not emptied
    first); over a longer file it does not end up equal to the
    source. *)
Theorem copyFile_keeps_tail (w : World) (src dst : string)
    (data old : list byte) :
  FileReaderFrom rt = true ->
  quota w = None ->
  FS.Stat (GOOS rt) (fs w) src = Some (Regular data) ->
  FS.Stat (GOOS rt) (fs w) dst = Some (Regular old) ->
  FS.components (GOOS rt) src <> FS.components (GOOS rt) dst ->
  exists w',
    copyFile rt w dst src = (w', (length data, None)) /\
    FS.Stat (GOOS rt) (fs w') dst
    = Some (Regular (data ++ skipn (length data) old)) /\
    (length data < length old ->
     FS.Stat (GOOS rt) (fs w') dst <> Some (Regular data)).
Proof.
  intros Hrf Hq S D ne.
  destruct (copyFile_no_truncate rt w src dst data old Hrf Hq S D ne)
    as (w' & E & D').
  exists w'. repeat split; try assumption.
  intros Hlt. rewrite D'. intros [= H].
  apply (f_equal (@length byte)) in H.
  rewrite length_app, length_skipn in H. lia.
Qed.

(** X7: the closure on a source that names nothing (in all three
    revisions): [IsFile] lets it through, the copy is tried, and the
    last line printed is the error of the copy on the standard error;
    in part_000 and part_001 the file system is left as it was. *)
Theorem delayed_on_missing_source (v : Variant) (w : World) (t : Timer) :
  FS.Stat (GOOS rt) (fs w) (source t) = None ->
  (exists lines e,
     output (delayed rt v w t) = lines ++ [(line v Stderr, Failure e)]) /\
  (v <> watch_go -> fs (delayed rt v w t) = fs w).
Proof.
  intros S. split; [exact (delayed_missing_source rt v w t S)|].
  intros Hv. unfold delayed, IsFile, IsDir, Copy. rewrite S.
  now destruct v.
Qed.

End CopyMore.

(** ** More on init *)

Section InitMore.

Variable rt : Runtime.
Variable v : Variant.

(** X19: a first argument that names nothing (the empty string included):
    [init] prints the usage text, not the error, and exits with 2. *)
Theorem init_missing_root (w : World) (arg1 : string) (rest : list string) :
  FS.Stat (GOOS rt) (fs w) arg1 = None ->
  init rt v w (arg1 :: rest) = Exit 2 (say v Stderr Usage w).
Proof.
  intros S. unfold init, ResolvePaths. cbn [resolve NoRecurse opts].
  destruct (String.eqb arg1 ""); [reflexivity|]. now rewrite S.
Qed.

(** X20: after a start the file system and the timers are as before, there
    is a path to watch, the delay is ten seconds, and mirroring is on
    exactly when the second argument names a directory (in all three
    revisions). *)
Theorem init_started (w w' : World) (args : list string) (g : Globals) :
  init rt v w args = Started g w' ->
  fs w' = fs w /\ timers w' = timers w /\
  paths g <> [] /\ sleep g = 10 /\
  mirroring rt g w' = names_directory rt (fs w) args.
Proof.
  unfold init, names_directory, mirroring.
  destruct args as [|arg1 rest]; [discriminate|].
  destruct (ResolvePaths _ _ _ _) as [ps e].
  destruct ps as [|p ps]; [discriminate|]. cbn [length Nat.leb].
  set (dir := match rest with
              | [] => ""
              | arg2 :: _ => if IsDir rt (fs w) arg2 then arg2 else ""
              end).
  destruct (ParseDuration _ _); [|discriminate].
  intros [= <- <-]. cbn [paths sleep copyDir].
  assert (fs (if copyDir_missing rt v (fs w) dir
              then say v Stderr (NotExists dir) w else w) = fs w) as Hfs
    by now destruct (copyDir_missing _ _ _ _).
  rewrite Hfs. repeat split; try easy.
  - now destruct (copyDir_missing _ _ _ _).
  - subst dir. destruct rest as [|arg2 rest]; [reflexivity|].
    destruct (IsDir rt (fs w) arg2) eqn:D; [|reflexivity].
    now rewrite D, (IsDir_length _ _ _ D).
Qed.

(** X21: part_000 and part_001, started with nothing printed yet: the
    line "copy target dir is not exists" is among the output exactly
    when the second argument names no directory. *)
Theorem init_diagnostic_printed (w w' : World) (args : list string)
    (g : Globals) :
  v <> watch_go ->
  output w = [] ->
  init rt v w args = Started g w' ->
  (In (Stderr, NotExists (copyDir g)) (output w') <->
   names_directory rt (fs w) args = false).
Proof.
  intros Hv O H. pose proof (init_diagnostic rt v w w' args g Hv H) as D.
  destruct (names_directory rt (fs w) args).
  - destruct D as [-> _]. rewrite O. simpl. split; [easy|discriminate].
  - destruct D as [-> ->]. rewrite O. simpl. split; [easy|auto].
Qed.

(** X22: watch.go prints "copy target dir is not exists" after every
    start, with the mirror directory it has set: also when the second
    argument names a directory and that directory is the mirror. *)
Theorem init_diagnostic_always (w w' : World) (args : list string)
    (g : Globals) :
  init rt watch_go w args = Started g w' ->
  output w' = output w ++ [(Stderr, NotExists (copyDir g))] /\
  (names_directory rt (fs w) args = true ->
   IsDir rt (fs w) (copyDir g) = true).
Proof.
  intros H. split; [exact (init_diagnostic_watch_go rt w w' args g H)|].
  unfold init, names_directory in *.
  destruct args as [|arg1 [|arg2 rest]]; try discriminate.
  destruct (ResolvePaths _ _ _ _) as [ps e].
  destruct (length ps <=? 0); [discriminate|].
  intros D. rewrite D in H.
  destruct (copyDir_missing _ _ _ _); (destruct (ParseDuration _ _);
    [|discriminate]); now injection H as <- _.
Qed.

End InitMore.

(** ** The event loop *)

Section LoopFacts.

Variable rt : Runtime.
Variable v : Variant.
Variable o : options.
Variable g : Globals.

Lemma elapse_no_timers (d : nat) (w : World) :
  timers w = [] ->
  fs (elapse rt v d w) = fs w /\ timers (elapse rt v d w) = [] /\
  output (elapse rt v d w) = output w.
Proof. unfold elapse. intros ->. now simpl. Qed.

(** X23: with mirroring off and no copy waiting, whatever comes in, the loop
    never aborts and leaves the file system as it was, with no copy
    scheduled. *)
Theorem serve_without_mirror (inputs : list incoming) :
  forall l,
    mirroring rt g (world l) = false ->
    timers (world l) = [] ->
    exists l',
      (serve rt v o g l inputs = Running l' \/
       serve rt v o g l inputs = Exited 1 l') /\
      fs (world l') = fs (world l) /\ timers (world l') = [].
Proof.
  induction inputs as [|i inputs IH]; intros l M T; [exists l; auto|].
  assert (forall w, fs w = fs (world l) -> mirroring rt g w = false) as Mfs.
  { intros w E. unfold mirroring in *. now rewrite E. }
  assert (forall p, syncFile rt v g (world l) p = Returns (world l) None) as S.
  { intros p. unfold syncFile. unfold mirroring in M.
    destruct (String.length (copyDir g) =? 0); [reflexivity|].
    simpl in M. now rewrite M. }
  assert (forall l1, fs (world l1) = fs (world l) -> timers (world l1) = [] ->
            exists l',
              (serve rt v o g l1 inputs = Running l' \/
               serve rt v o g l1 inputs = Exited 1 l') /\
              fs (world l') = fs (world l) /\ timers (world l') = []) as Next.
  { intros l1 F1 T1. destruct (IH l1 (Mfs _ F1) T1) as (l' & R & F & T').
    exists l'. repeat split; [exact R|congruence|exact T']. }
  cbn [serve]. destruct i as [ev|err|d]; cbn [receive].
  - destruct (IsCreate ev || IsAttrib ev); [rewrite S|]; now apply Next.
  - destruct (Halt o); [|now apply Next].
    eexists. split; [right; reflexivity|]. now split.
  - destruct (elapse_no_timers d (world l) T) as (F & T' & _).
    now apply Next.
Qed.

(** X24: unless halt is set the loop exits on nothing that comes in,
    neither on an error of the watcher nor on one of [syncFile]. *)
Theorem serve_never_exits (inputs : list incoming) :
  Halt o = false ->
  forall l code l', serve rt v o g l inputs <> Exited code l'.
Proof.
  intros H. induction inputs as [|i inputs IH]; intros l code l';
    [discriminate|].
  cbn [serve]. destruct i as [ev|err|d]; cbn [receive].
  - destruct (IsCreate ev || IsAttrib ev); [|apply IH].
    destruct (syncFile _ _ _ _ _) as [w' [e|]|]; try apply IH. discriminate.
  - rewrite H. apply IH.
  - apply IH.
Qed.

End LoopFacts.

(** ** ExecCommand *)

Module StringsFacts.
Import Strings.

Lemma append_nil_r (s : string) : (s ++ "")%string = s.
Proof. induction s; simpl; congruence. Qed.

Lemma append_assoc (a b c : string) :
  ((a ++ b) ++ c)%string = (a ++ b ++ c)%string.
Proof. induction a; simpl; congruence. Qed.

Lemma Split_nonempty (sep : ascii) (s acc : string) : Split sep s acc <> [].
Proof.
  revert acc. induction s as [|c s IH]; intros acc; simpl; [discriminate|].
  destruct (Ascii.eqb c sep); [discriminate|apply IH].
Qed.

(** Joining the pieces gives the string back. *)
Lemma Join_Split (sep : ascii) (s : string) :
  forall acc, Join sep (Split sep s acc) = (acc ++ s)%string.
Proof.
  induction s as [|c s IH]; intros acc; cbn [Split].
  - simpl. now rewrite append_nil_r.
  - destruct (Ascii.eqb_spec c sep) as [->|ne].
    + specialize (IH EmptyString). cbn [append] in IH.
      pose proof (Split_nonempty sep s EmptyString) as N.
      destruct (Split sep s EmptyString) as [|e rest]; [easy|].
      change (Join sep (acc :: e :: rest))
        with (acc ++ String sep (Join sep (e :: rest)))%string.
      now rewrite IH.
    + rewrite IH, append_assoc. reflexivity.
Qed.

Lemma has_append (sep : ascii) (a b : string) :
  has sep (a ++ b)%string = has sep a || has sep b.
Proof. induction a; simpl; [reflexivity|]. now rewrite IHa, orb_assoc. Qed.

Lemma Split_pieces (sep : ascii) (s : string) :
  forall acc, has sep acc = false ->
    Forall (fun piece => has sep piece = false) (Split sep s acc).
Proof.
  induction s as [|c s IH]; intros acc H; simpl; [now constructor|].
  destruct (Ascii.eqb c sep) eqn:E; [constructor; [exact H|now apply IH]|].
  apply IH. rewrite has_append, H. simpl. now rewrite E.
Qed.

End StringsFacts.

(** X25: with a command set, [ExecCommand] runs it and never aborts on
    [args[0]]: the name and the arguments are the pieces of the command
    between spaces (none holds a space, some may be empty), and joined
    with spaces they give the command back. *)
Theorem ExecCommand_runs (Run : string -> list string -> option error)
    (o : options) :
  OnChange o <> "" ->
  exists name arg,
    ExecCommand Run o = Some (Run name arg) /\
    Strings.Join " "%char (name :: arg) = OnChange o /\
    Forall (fun piece => Strings.has " "%char piece = false) (name :: arg).
Proof.
  intros H. unfold ExecCommand.
  destruct (String.eqb_spec (OnChange o) ""); [easy|].
  pose proof (StringsFacts.Split_nonempty " "%char (OnChange o) "") as N.
  pose proof (StringsFacts.Join_Split " "%char (OnChange o) "") as J.
  pose proof (StringsFacts.Split_pieces " "%char (OnChange o) "" eq_refl) as P.
  destruct (Strings.Split _ _ _) as [|name arg]; [easy|].
  now exists name, arg.
Qed.

(** ** Paths and their directories *)

Module PathFacts.
Import FS.

Lemma string_of_app (l1 l2 : list ascii) :
  string_of_list_ascii (l1 ++ l2)
  = (string_of_list_ascii l1 ++ string_of_list_ascii l2)%string.
Proof. induction l1; simpl; congruence. Qed.

Lemma list_of_append (a b : string) :
  list_ascii_of_string (a ++ b)
  = list_ascii_of_string a ++ list_ascii_of_string b.
Proof. induction a; simpl; congruence. Qed.

(** The elements before a separator and those after it. *)
Lemma fields_separator (os : string) (c : ascii) (a b : string) :
  IsPathSeparator os c = true ->
  forall acc, fields os (a ++ String c b) acc
              = fields os a acc ++ fields os b EmptyString.
Proof.
  intros Hc. induction a as [|x a IH]; intros acc; simpl.
  - now rewrite Hc.
  - destruct (IsPathSeparator os x); [now rewrite IH|apply IH].
Qed.

Lemma fields_sepfree (os : string) (e : string) :
  sepfree os (list_ascii_of_string e) = true ->
  forall acc, fields os e acc = [(acc ++ e)%string].
Proof.
  induction e as [|x e IH]; intros H acc; simpl in *.
  - now rewrite StringsFacts.append_nil_r.
  - apply andb_prop in H as [Hx He].
    destruct (IsPathSeparator os x); [discriminate|].
    now rewrite (IH He), StringsFacts.append_assoc.
Qed.

(** A path has no separator, or a last one. *)
Lemma last_separator (os : string) (p : string) :
  sepfree os (list_ascii_of_string p) = true \/
  exists a c e,
    p = (a ++ String c e)%string /\ IsPathSeparator os c = true /\
    sepfree os (list_ascii_of_string e) = true.
Proof.
  induction p as [|x p [IH|(a & c & e & -> & Hc & He)]].
  - now left.
  - simpl. destruct (IsPathSeparator os x) eqn:Hx.
    + right. now exists EmptyString, x, p.
    + left. now rewrite IH.
  - right. now exists (String x a), c, e.
Qed.

Lemma sepfree_rev (os : string) (l : list ascii) :
  sepfree os (rev l) = sepfree os l.
Proof.
  unfold sepfree. induction l as [|x l IH]; [reflexivity|]. simpl.
  rewrite forallb_app, IH. simpl. now rewrite andb_true_r, andb_comm.
Qed.

Lemma drop_element_sepfree (os : string) (l1 : list ascii) :
  sepfree os l1 = true ->
  forall c l2, IsPathSeparator os c = true ->
    Filepath.drop_element os (l1 ++ c :: l2) = c :: l2.
Proof.
  induction l1 as [|x l1 IH]; intros H c l2 Hc; simpl in *.
  - now rewrite Hc.
  - apply andb_prop in H as [Hx H].
    destruct (IsPathSeparator os x); [discriminate|]. now apply IH.
Qed.

Lemma drop_element_all (os : string) (l : list ascii) :
  sepfree os l = true -> Filepath.drop_element os l = [].
Proof.
  induction l as [|x l IH]; intros H; simpl in *; [reflexivity|].
  apply andb_prop in H as [Hx H].
  destruct (IsPathSeparator os x); [discriminate|]. now apply IH.
Qed.

Lemma components_separator (os : string) (s : string) (c : ascii) :
  IsPathSeparator os c = true ->
  components os (s ++ String c EmptyString) = components os s.
Proof.
  intros Hc. unfold components. rewrite (fields_separator _ _ _ _ Hc).
  rewrite filter_app. simpl. now rewrite app_nil_r.
Qed.

(** Separators at the end of a path do not count. *)
Lemma components_drop_separators (os : string) (l : list ascii) :
  components os (string_of_list_ascii (rev (Filepath.drop_separators os l)))
  = components os (string_of_list_ascii (rev l)).
Proof.
  induction l as [|x l IH]; [reflexivity|]. simpl.
  destruct (IsPathSeparator os x) eqn:Hx; [|reflexivity].
  rewrite IH, string_of_app. cbn [string_of_list_ascii].
  now rewrite components_separator.
Qed.

Lemma components_dot (os : string) : components os "." = [].
Proof.
  unfold components, fields, IsPathSeparator.
  now destruct (String.eqb os "windows").
Qed.

(** The directory of a path that ends in a name holds all its names but
    that last one. *)
Lemma components_Dir (os path : string) :
  ends_in_name os path = true ->
  components os path
  = components os (Filepath.Dir os path)
    ++ [last (fields os path EmptyString) EmptyString].
Proof.
  unfold ends_in_name, Filepath.Dir.
  destruct (last_separator os path) as [H|(a & c & e & -> & Hc & He)].
  - rewrite (drop_element_all os); [|now rewrite sepfree_rev].
    unfold components at 1. rewrite (fields_sepfree _ _ H). simpl.
    rewrite components_dot. now intros ->.
  - rewrite (fields_separator _ _ _ _ Hc), (fields_sepfree _ _ He).
    rewrite last_last. simpl append. intros Hn.
    unfold components at 1.
    rewrite (fields_separator _ _ _ _ Hc), (fields_sepfree _ _ He), filter_app.
    simpl. rewrite Hn. f_equal. fold (components os a).
    rewrite list_of_append. simpl. rewrite rev_app_distr. simpl.
    rewrite <- app_assoc. simpl.
    rewrite drop_element_sepfree; [|now rewrite sepfree_rev|exact Hc].
    pose proof (components_drop_separators os
                  (rev (list_ascii_of_string a))) as D.
    rewrite rev_involutive, string_of_list_ascii_of_string in D.
    simpl. rewrite Hc.
    destruct (Filepath.drop_separators os (rev (list_ascii_of_string a)))
      as [|y d].
    + rewrite <- D. unfold components. simpl. rewrite Hc. reflexivity.
    + now rewrite <- D.
Qed.

(** A file can be created in a directory that is there, under a name
    that no directory has. *)
Lemma create_in_directory (trunc : bool) (name : string) (cs : list string) :
  forall n r es,
    lookup n cs = Some (Directory r es) ->
    (forall r' es', lookup n (cs ++ [name]) <> Some (Directory r' es')) ->
    exists n', alter (open_write trunc) n (cs ++ [name]) = Ok n'.
Proof.
  induction cs as [|c cs IH]; intros n r es L N; simpl in *.
  - injection L as ->.
    destruct (find_entry name es) as [[d|r' es']|] eqn:F; simpl.
    + now eexists.
    + now elim (N r' es').
    + now eexists.
  - destruct n as [d|r0 es0]; [discriminate|].
    destruct (find_entry c es0) as [ch|]; [|discriminate].
    destruct (IH _ _ _ L N) as [ch' ->]. simpl. now eexists.
Qed.

End PathFacts.

(** ** From the event to the mirrored file *)

Section EndToEnd.

Variable rt : Runtime.

Lemma Copy_frame (w : World) (src dst : string) :
  timers (fst (Copy rt w src dst)) = timers w /\
  now (fst (Copy rt w src dst)) = now w /\
  quota (fst (Copy rt w src dst)) = quota w.
Proof.
  unfold Copy. destruct (FS.Stat _ _ src); [|easy].
  destruct (FS.Create _ _ _); [|easy].
  destruct (FS.Stat _ _ src) as [[d|r es]|]; try easy.
  now destruct (io_Copy _ _).
Qed.

(** After [mkdirAll] of the directory of a path that ends in a name and
    is no directory, the file can be created. *)
Lemma Create_after_mkdirAll (root root' : node) (path : string) :
  path <> "" ->
  ends_in_name (GOOS rt) path = true ->
  IsDir rt root path = false ->
  mkdirAll rt root (Filepath.Dir (GOOS rt) path) = (root', None) ->
  exists fs1, FS.Create (GOOS rt) root' path = Ok fs1.
Proof.
  intros Hne He Hd Mk. unfold FS.Create, FS.OpenFile.
  destruct (String.eqb_spec path ""); [easy|].
  rewrite (PathFacts.components_Dir _ _ He).
  unfold mkdirAll, FS.MkdirAll in Mk.
  destruct (String.eqb _ ""); [discriminate|].
  destruct (FS.mkdirs _ _) as [n'|e] eqn:M; [|discriminate].
  injection Mk as <-.
  destruct (MkdirFacts.mkdirs_lookup _ _ _ M) as (r & es & L).
  apply (PathFacts.create_in_directory true _ _ _ _ _ L).
  intros r' es' L'.
  apply (MkdirFacts.mkdirs_below _ _ _ _ _ M) in L'; [|discriminate].
  rewrite <- (PathFacts.components_Dir _ _ He) in L'.
  unfold IsDir, FS.Stat in Hd.
  destruct (String.eqb_spec path ""); [easy|]. now rewrite L' in Hd.
Qed.

(** X13: part_000 and part_001, from the event to the mirror.  Mirroring is
    on, no copy is waiting, the path is a regular file, its mirror path
    ends in a name, is another place and is no directory, and the bytes
    fit.  When [syncFile] returns nil and [sleep] seconds pass, the
    mirror path holds the bytes of the file, the file holds them still,
    no copy is left waiting, and the two lines of the copy are
    printed. *)
Theorem syncFile_then_copy (v : Variant) (g : Globals) (w w1 : World)
    (filePath np : string) (data : list byte) :
  v <> watch_go ->
  mirroring rt g w = true ->
  timers w = [] ->
  FS.Stat (GOOS rt) (fs w) filePath = Some (Regular data) ->
  newPath (GOOS rt) (copyDir g) filePath = Some np ->
  ends_in_name (GOOS rt) np = true ->
  FS.components (GOOS rt) filePath <> FS.components (GOOS rt) np ->
  IsDir rt (fs w) np = false ->
  (forall q, quota w = Some q -> length data <= q) ->
  syncFile rt v g w filePath = Returns w1 None ->
  let w2 := elapse rt v (sleep g) w1 in
  FS.Stat (GOOS rt) (fs w2) np = Some (Regular data) /\
  FS.Stat (GOOS rt) (fs w2) filePath = Some (Regular data) /\
  timers w2 = [] /\
  output w2 = output w ++ [(line v Stdout, CopyIn filePath np (sleep g));
                           (line v Stdout, CopySuccess np)].
Proof.
  intros Hv M T S N He ne Hd Hq H.
  assert (IsDir rt (fs w) filePath = false) as Df
    by (unfold IsDir; now rewrite S).
  rewrite (syncFile_mirroring _ _ _ _ _ M), N, Df in H.
  destruct (mkdirAll _ _ _) as [fs' [e|]] eqn:Mk; [discriminate|].
  injection H as <-.
  pose proof (newPath_nonempty _ _ _ _ (mirroring_copyDir _ _ _ M) N) as Hnp.
  destruct (Create_after_mkdirAll _ _ _ Hnp He Hd Mk) as [fs1 C].
  pose proof (proj2 (mkdirAll_files _ _ _ _ _ filePath data Mk) S) as S'.
  set (w1' := {| fs := fs'; quota := quota w; now := now w + sleep g;
                 timers := [];
                 output := output w
                           ++ [(line v Stdout, CopyIn filePath np (sleep g))] |}).
  assert (elapse rt v (sleep g)
            (AfterFunc
               (say v Stdout (CopyIn filePath np (sleep g)) (with_fs w fs'))
               (sleep g) filePath np)
          = delayed rt v w1'
              {| due := now w + sleep g; source := filePath; dest := np |})
    as ->.
  { unfold elapse. cbn [AfterFunc say with_fs timers now fs quota output].
    rewrite T. cbn [app filter due]. rewrite Nat.leb_refl. reflexivity. }
  destruct (Copy_ok rt w1' filePath np data fs1 S' C ne Hq)
    as (w' & E & D' & S'').
  pose proof (Copy_output rt w1' filePath np) as O.
  destruct (Copy_frame w1' filePath np) as (Tm & _ & _).
  rewrite E in O, Tm. cbn [fst] in O, Tm.
  unfold delayed, IsFile, IsDir. cbn [source dest fs w1'].
  rewrite S'. cbn [Filepath.is_dir negb].
  fold w1'. destruct v; [contradiction| |]; rewrite E; cbn [say fs timers output];
    rewrite O, Tm; cbn [w1' output timers]; rewrite <- app_assoc;
    now repeat split.
Qed.

End EndToEnd.


(** ** Instances of the further properties *)

Lemma Copy_returns_nil_witness :
  let rt := Scenario.linux true in
  let w' := fst (Copy rt Scenario.mirrored "/data/a.txt" "/backup/data/a.txt") in
  exists data,
    FS.Stat "linux" (fs Scenario.mirrored) "/data/a.txt" = Some (Regular data) /\
    FS.Stat "linux" (fs w') "/backup/data/a.txt" = Some (Regular data) /\
    FS.Stat "linux" (fs w') "/data/a.txt" = Some (Regular data).
Proof.
  apply (Copy_returns_nil (Scenario.linux true) Scenario.mirrored _
           "/data/a.txt" "/backup/data/a.txt");
    [reflexivity | vm_compute; discriminate].
Defined.

Lemma Copy_keeps_files_witness :
  let rt := Scenario.linux true in
  let w' := fst (Copy rt Scenario.mirrored "/data/a.txt" "/backup/data/b.txt") in
  (FS.Stat "linux" (fs w') "/backup/data/a.txt"
   = Some (Regular (Scenario.bytes "HELLO WORLD")) <->
   FS.Stat "linux" (fs Scenario.mirrored) "/backup/data/a.txt"
   = Some (Regular (Scenario.bytes "HELLO WORLD"))) /\
  timers w' = timers Scenario.mirrored /\ output w' = output Scenario.mirrored.
Proof.
  apply (Copy_keeps_files (Scenario.linux true) Scenario.mirrored _
           "/data/a.txt" "/backup/data/b.txt" None "/backup/data/a.txt");
    [reflexivity | vm_compute; discriminate].
Defined.

Lemma Copy_succeeds_witness :
  exists w',
    Copy (Scenario.linux true) Scenario.mirrored
      "/data/a.txt" "/backup/data/a.txt" = (w', None) /\
    FS.Stat "linux" (fs w') "/backup/data/a.txt"
    = Some (Regular (Scenario.bytes "hello")) /\
    FS.Stat "linux" (fs w') "/data/a.txt"
    = Some (Regular (Scenario.bytes "hello")).
Proof.
  eapply (Copy_succeeds (Scenario.linux true) Scenario.mirrored
            "/data/a.txt" "/backup/data/a.txt");
    [reflexivity | reflexivity | vm_compute; discriminate | discriminate].
Defined.

Lemma Copy_short_write_witness :
  exists w',
    Copy (Scenario.linux true) Cases.tight
      "/data/a.txt" "/backup/data/a.txt" = (w', Some ErrNoSpace) /\
    FS.Stat "linux" (fs w') "/backup/data/a.txt"
    = Some (Regular (firstn 3 (Scenario.bytes "hello"))).
Proof.
  eapply (Copy_short_write (Scenario.linux true) Cases.tight
            "/data/a.txt" "/backup/data/a.txt");
    [reflexivity | reflexivity | vm_compute; discriminate | reflexivity
    | vm_compute; lia].
Defined.

Lemma copyFile_keeps_tail_witness :
  exists w',
    copyFile (Scenario.linux true) Scenario.mirrored
      "/backup/data/a.txt" "/data/a.txt" = (w', (5, None)) /\
    FS.Stat "linux" (fs w') "/backup/data/a.txt"
    = Some (Regular (Scenario.bytes "hello"
                     ++ skipn 5 (Scenario.bytes "HELLO WORLD"))) /\
    (5 < 11 ->
     FS.Stat "linux" (fs w') "/backup/data/a.txt"
     <> Some (Regular (Scenario.bytes "hello"))).
Proof.
  apply (copyFile_keeps_tail (Scenario.linux true) Scenario.mirrored
           "/data/a.txt" "/backup/data/a.txt"
           (Scenario.bytes "hello") (Scenario.bytes "HELLO WORLD"));
    [reflexivity | reflexivity | reflexivity | reflexivity
    | vm_compute; discriminate].
Defined.

Lemma copyFile_missing_source_witness :
  exists w' d,
    copyFile (Scenario.linux true) Scenario.mirrored
      "/backup/data/ghost" "/data/ghost" = (w', (0, Some ErrInvalid)) /\
    FS.Stat "linux" (fs w') "/backup/data/ghost" = Some (Regular d) /\
    (FS.Stat "linux" (fs Scenario.mirrored) "/backup/data/ghost" = None ->
     d = []).
Proof.
  eapply (copyFile_missing_source (Scenario.linux true) Scenario.mirrored
            "/data/ghost" "/backup/data/ghost"); reflexivity.
Defined.

Lemma delayed_on_missing_source_witness :
  let rt := Scenario.linux true in
  let t := {| due := 10; source := "/data/ghost"; dest := "/backup/data/ghost" |} in
  (exists lines e,
     output (delayed rt part_001 Scenario.mirrored t)
     = lines ++ [(Stderr, Failure e)]) /\
  (part_001 <> watch_go ->
   fs (delayed rt part_001 Scenario.mirrored t) = fs Scenario.mirrored).
Proof.
  apply (delayed_on_missing_source (Scenario.linux true) part_001
           Scenario.mirrored
           {| due := 10; source := "/data/ghost";
              dest := "/backup/data/ghost" |}).
  reflexivity.
Defined.


Lemma syncFile_dir_created_witness :
  exists w' np,
    syncFile (Scenario.linux true) watch_go (Scenario.globals "/backup")
      Scenario.fresh "/data/sub" = Returns w' None /\
    newPath "linux" "/backup" "/data/sub" = Some np /\
    IsDir (Scenario.linux true) (fs w') np = true /\
    timers w' = timers Scenario.fresh.
Proof.
  eexists. 
  assert (syncFile (Scenario.linux true) watch_go (Scenario.globals "/backup")
            Scenario.fresh "/data/sub"
          = Returns
              (with_fs Scenario.fresh
                 (fst (mkdirAll (Scenario.linux true) (fs Scenario.fresh)
                         "/backup/data/sub"))) None) as E by reflexivity.
  destruct (syncFile_dir_created (Scenario.linux true) watch_go
              (Scenario.globals "/backup") Scenario.fresh _ "/data/sub"
              eq_refl eq_refl E) as (np & N & D & T).
  exists np. split; [exact E|]. now split.
Defined.

Lemma syncFile_schedules_witness :
  exists w' np,
    syncFile (Scenario.linux true) part_001 (Scenario.globals "/backup")
      Scenario.fresh "/data/ghost" = Returns w' None /\
    newPath "linux" "/backup" "/data/ghost" = Some np /\
    IsDir (Scenario.linux true) (fs w') (Filepath.Dir "linux" np) = true /\
    timers w' = timers Scenario.fresh
                ++ [{| due := 0 + 10; source := "/data/ghost"; dest := np |}] /\
    now w' = now Scenario.fresh.
Proof.
  eexists.
  assert (syncFile (Scenario.linux true) part_001 (Scenario.globals "/backup")
            Scenario.fresh "/data/ghost"
          = Returns
              (AfterFunc
                 (say part_001 Stdout
                    (CopyIn "/data/ghost" "/backup/data/ghost" 10)
                    (with_fs Scenario.fresh
                       (fst (mkdirAll (Scenario.linux true)
                               (fs Scenario.fresh) "/backup/data"))))
                 10 "/data/ghost" "/backup/data/ghost") None) as E
    by reflexivity.
  destruct (syncFile_schedules (Scenario.linux true) part_001
              (Scenario.globals "/backup") Scenario.fresh _ "/data/ghost"
              eq_refl eq_refl E) as (np & N & D & T & C).
  exists np. split; [exact E|]. now repeat split.
Defined.

Lemma syncFile_keeps_files_witness :
  let rt := Scenario.linux true in
  let w' := with_fs Scenario.fresh
              (fst (mkdirAll rt (fs Scenario.fresh) "/backup/data/sub")) in
  FS.Stat "linux" (fs w') "/data/a.txt"
  = Some (Regular (Scenario.bytes "hello")) <->
  FS.Stat "linux" (fs Scenario.fresh) "/data/a.txt"
  = Some (Regular (Scenario.bytes "hello")).
Proof.
  apply (syncFile_keeps_files (Scenario.linux true) part_001
           (Scenario.globals "/backup") Scenario.fresh _ "/data/sub" None
           "/data/a.txt").
  reflexivity.
Defined.

Lemma ResolvePaths_app_witness :
  let rt := Scenario.linux true in
  ResolvePaths rt opts (fs Cases.deep) (["/data/a.txt"] ++ ["/data/sub"])
  = (fst (ResolvePaths rt opts (fs Cases.deep) ["/data/a.txt"])
     ++ fst (ResolvePaths rt opts (fs Cases.deep) ["/data/sub"]), None).
Proof.
  apply (ResolvePaths_app (Scenario.linux true) opts (fs Cases.deep)
           ["/data/a.txt"] ["/data/sub"]); reflexivity.
Defined.

Lemma ResolvePaths_files_witness :
  ResolvePaths (Scenario.linux true) opts (fs Cases.deep)
    ["/data/sub/b.txt"; "/data/a.txt"]
  = (["/data/sub/b.txt"; "/data/a.txt"], None).
Proof.
  apply ResolvePaths_files.
  repeat constructor; eexists; reflexivity.
Defined.

Lemma ResolvePaths_NoRecurse_length_witness :
  length (fst (ResolvePaths (Scenario.linux true) Cases.no_recurse
                 (fs Cases.deep) ["/data"; ""; "/data/sub"; "/data/a.txt"]))
  <= 4.
Proof.
  apply (ResolvePaths_NoRecurse_length (Scenario.linux true) Cases.no_recurse
           (fs Cases.deep) ["/data"; ""; "/data/sub"; "/data/a.txt"]).
  reflexivity.
Defined.


Lemma init_missing_root_witness :
  init (Scenario.linux true) watch_go Scenario.fresh ["/nope"; "/backup"]
  = Exit 2 (say watch_go Stderr Usage Scenario.fresh).
Proof.
  apply (init_missing_root (Scenario.linux true) watch_go Scenario.fresh
           "/nope" ["/backup"]).
  reflexivity.
Defined.

Lemma init_started_witness :
  exists g w',
    init (Scenario.linux true) watch_go Scenario.fresh ["/data"; "/backup"]
    = Started g w' /\
    fs w' = fs Scenario.fresh /\ timers w' = timers Scenario.fresh /\
    paths g <> [] /\ sleep g = 10 /\
    mirroring (Scenario.linux true) g w' = true.
Proof.
  eexists. eexists. split; [reflexivity|].
  apply (init_started (Scenario.linux true) watch_go Scenario.fresh _
           ["/data"; "/backup"]).
  reflexivity.
Defined.

Lemma init_diagnostic_printed_witness :
  exists g w',
    init (Scenario.linux true) part_000 Scenario.fresh ["/data"; "/data/a.txt"]
    = Started g w' /\
    (In (Stderr, NotExists (copyDir g)) (output w') <->
     names_directory (Scenario.linux true) (fs Scenario.fresh)
       ["/data"; "/data/a.txt"] = false).
Proof.
  eexists. eexists. split; [reflexivity|].
  apply (init_diagnostic_printed (Scenario.linux true) part_000
           Scenario.fresh _ ["/data"; "/data/a.txt"]);
    [discriminate|reflexivity|reflexivity].
Defined.

Lemma init_diagnostic_always_witness :
  exists g w',
    init (Scenario.linux true) watch_go Scenario.fresh ["/data"; "/backup"]
    = Started g w' /\
    output w' = output Scenario.fresh ++ [(Stderr, NotExists (copyDir g))] /\
    (names_directory (Scenario.linux true) (fs Scenario.fresh)
       ["/data"; "/backup"] = true ->
     IsDir (Scenario.linux true) (fs Scenario.fresh) (copyDir g) = true).
Proof.
  eexists. eexists. split; [reflexivity|].
  apply (init_diagnostic_always (Scenario.linux true) Scenario.fresh _
           ["/data"; "/backup"]).
  reflexivity.
Defined.

Lemma serve_without_mirror_witness :
  let inputs :=
    [FromEvent (Cases.created "/data/a.txt"); Pass 10;
     FromError ErrPermission; FromEvent (Cases.created "/data/sub")] in
  exists l',
    (serve (Scenario.linux true) part_001 opts (Scenario.globals "")
       (Cases.loop Scenario.fresh) inputs = Running l' \/
     serve (Scenario.linux true) part_001 opts (Scenario.globals "")
       (Cases.loop Scenario.fresh) inputs = Exited 1 l') /\
    fs (world l') = fs Scenario.fresh /\ timers (world l') = [].
Proof.
  apply (serve_without_mirror (Scenario.linux true) part_001 opts
           (Scenario.globals "")); reflexivity.
Defined.

Lemma serve_never_exits_witness :
  serve (Scenario.linux true) watch_go opts (Scenario.globals "/backup")
    (Cases.loop Scenario.fresh)
    [FromError ErrPermission; FromEvent (Cases.created "/data/a.txt")]
  <> Exited 1 (Cases.loop Scenario.fresh).
Proof.
  apply (serve_never_exits (Scenario.linux true) watch_go opts
           (Scenario.globals "/backup")).
  reflexivity.
Defined.

Lemma ExecCommand_runs_witness :
  let Run := fun (name : string) (arg : list string) =>
               if String.eqb name "rsync" then None else Some ErrNotExist in
  exists name arg,
    ExecCommand Run (Cases.on_change "rsync -a  /data") = Some (Run name arg) /\
    Strings.Join " "%char (name :: arg) = "rsync -a  /data" /\
    Forall (fun piece => Strings.has " "%char piece = false) (name :: arg).
Proof.
  intros Run.
  apply (ExecCommand_runs Run (Cases.on_change "rsync -a  /data")).
  discriminate.
Defined.

Lemma syncFile_then_copy_witness :
  let rt := Scenario.linux true in
  let w2 :=
    elapse rt part_001 10
      (AfterFunc
         (say part_001 Stdout (CopyIn "/data/a.txt" "/backup/data/a.txt" 10)
            (with_fs Scenario.fresh
               (fst (mkdirAll rt (fs Scenario.fresh) "/backup/data"))))
         10 "/data/a.txt" "/backup/data/a.txt") in
  FS.Stat "linux" (fs w2) "/backup/data/a.txt"
  = Some (Regular (Scenario.bytes "hello")) /\
  FS.Stat "linux" (fs w2) "/data/a.txt"
  = Some (Regular (Scenario.bytes "hello")) /\
  timers w2 = [] /\
  output w2 = [(Stdout, CopyIn "/data/a.txt" "/backup/data/a.txt" 10);
               (Stdout, CopySuccess "/backup/data/a.txt")].
Proof.
  apply (syncFile_then_copy (Scenario.linux true) part_001
           (Scenario.globals "/backup") Scenario.fresh _
           "/data/a.txt" "/backup/data/a.txt" (Scenario.bytes "hello"));
    try reflexivity; discriminate.
Defined.
